(** * flax.things.arch: entities, components, attribute slots and events

    A shallow embedding of [src/flax/things/arch.py].  Python objects that
    are mutated in place (entities, the dispatched event) are threaded
    through explicitly; the entity store is a finite map from object
    identities to entity records; exceptions are a sum type. *)

From Stdlib Require Import ZArith String.
From stdpp Require Import base gmap list strings.

Local Open Scope Z_scope.
Local Open Scope string_scope.
Local Open Scope list_scope.

(** ** Python results *)

Inductive exception :=
  | TypeError
  | KeyError
  | AttributeError
  | AssertionError
  | NameError
  | NoSuchThing.   (* a dangling identity in the store; unreachable in Python *)

Inductive result (A : Type) :=
  | Ok (a : A)
  | Raise (e : exception).
Arguments Ok {A} a.
Arguments Raise {A} e.

Definition rbind {A B} (r : result A) (k : A -> result B) : result B :=
  match r with
  | Ok a => k a
  | Raise e => Raise e
  end.

Notation "'let*' x ':=' r 'in' k" := (rbind r (fun x => k))
  (at level 10, x name, r at level 100, k at level 200).
Notation "'let*' ' p ':=' r 'in' k" :=
  (rbind r (fun x => match x with p => k end))
  (at level 10, p pattern, r at level 100, k at level 200).

Definition is_ok {A} (r : result A) : bool :=
  match r with Ok _ => true | Raise _ => false end.

(** ** Enumerations of the module *)

(** [class Layer(Enum)] *)
Inductive Layer := architecture | item | creature.

Global Instance Layer_eq_dec : EqDecision Layer.
Proof. solve_decision. Defined.

(** The zope interfaces declared in the module. *)
Inductive Iface :=
  | IComponent | IPhysics | IContainer | ICombatant
  | IActor | IPortable | IUsable | IEquipment.

Global Instance Iface_eq_dec : EqDecision Iface.
Proof. solve_decision. Defined.

Definition Iface_code (i : Iface) : nat :=
  match i with
  | IComponent => 0 | IPhysics => 1 | IContainer => 2 | ICombatant => 3
  | IActor => 4 | IPortable => 5 | IUsable => 6 | IEquipment => 7
  end%nat.

Definition Iface_decode (n : nat) : Iface :=
  match n with
  | 0 => IComponent | 1 => IPhysics | 2 => IContainer | 3 => ICombatant
  | 4 => IActor | 5 => IPortable | 6 => IUsable | _ => IEquipment
  end%nat.

Global Instance Iface_countable : Countable Iface.
Proof. apply (inj_countable' Iface_code Iface_decode). by intros []. Defined.

(** The names an interface declares in its body ([zi.Attribute]s and method
    signatures); [iface[name]] raises [KeyError] for any other name. *)
Definition Iface_names (i : Iface) : list string :=
  match i with
  | IPhysics => ["blocks"]
  | IContainer => ["inventory"]
  | ICombatant => ["health"; "strength"; "damage"]
  | IActor => ["act"]
  | IUsable => ["use"]
  | IComponent | IPortable | IEquipment => []
  end.

(** A zope attribute object.  [iface[name]] returns the same object at every
    call, so the identity test [is] of the source is equality of the pair. *)
Record Attr := { attr_iface : Iface; attr_name : string }.

Global Instance Attr_eq_dec : EqDecision Attr.
Proof. solve_decision. Defined.

Global Instance Attr_countable : Countable Attr.
Proof.
  apply (inj_countable' (fun a => (attr_iface a, attr_name a))
                        (fun p => {| attr_iface := p.1; attr_name := p.2 |})).
  by intros [].
Defined.

Definition Iface_getitem (i : Iface) (name : string) : result Attr :=
  if bool_decide (name ∈ Iface_names i)
  then Ok {| attr_iface := i; attr_name := name |}
  else Raise KeyError.

(** Identities of entities ([Thing] objects). *)
Abbreviation thing_id := nat.

Definition position : Type := Z * Z.

(** The Python values the attribute slots of the module hold: integers for
    the stats, a list of entities for the inventory. *)
Inductive value :=
  | VInt (n : Z)
  | VList (items : list thing_id).

Global Instance value_eq_dec : EqDecision value.
Proof. solve_decision. Defined.

(** [value + add] for an integer [add]: a list on the left is a [TypeError]. *)
Definition py_add (v : value) (d : Z) : result value :=
  match v with
  | VInt n => Ok (VInt (n + d))
  | VList _ => Raise TypeError
  end.

(** [value - amount] *)
Definition py_sub (v : value) (d : Z) : result value :=
  match v with
  | VInt n => Ok (VInt (n - d))
  | VList _ => Raise TypeError
  end.

(** [value <= 0] *)
Definition py_le0 (v : value) : result bool :=
  match v with
  | VInt n => Ok (bool_decide (n <= 0))
  | VList _ => Raise TypeError
  end.

(** ** Modifier *)

Module Modifier.
Record t := { stat : Attr; add : Z }.

(** [Modifier.modify] *)
Definition modify (self : t) (attr : Attr) (v : value) : result value :=
  if bool_decide (attr ≠ stat self) then Ok v
  else py_add v (add self).
End Modifier.

(** ** ThingType and Thing *)

Module ThingType.
Section WithCls.
Context {Cls : Type}.

(** [components] is a Python dict: iteration follows insertion order, so
    it is an association list with the newest key last. *)
Record t := {
  layer : Layer;
  name : string;
  tmp_rendering : string * string;
  modifiers : list Modifier.t;
  components : list (Iface * Cls)
}.
End WithCls.
Arguments t : clear implicits.
End ThingType.

Module Thing.
Section WithCls.
Context {Cls : Type}.

Record t := {
  type : ThingType.t Cls;
  modifiers : list Modifier.t;
  component_data : gmap Attr value
}.

(** [Thing.__init__] *)
Definition init (ty : ThingType.t Cls) : t :=
  {| type := ty; modifiers := []; component_data := ∅ |}.

(** [Thing.add_modifiers] *)
Definition add_modifiers (self : t) (mods : list Modifier.t) : t :=
  {| type := type self;
     modifiers := modifiers self ++ mods;
     component_data := component_data self |}.

Definition set_data (self : t) (d : gmap Attr value) : t :=
  {| type := type self;
     modifiers := modifiers self;
     component_data := d |}.
End WithCls.
Arguments t : clear implicits.
End Thing.

(** ** ThingType construction *)

Section ThingTypeInit.
Context {Cls : Type}.
(** [zi.implementedBy(component)], iterated in declaration order. *)
Variable implementedBy : Cls -> list Iface.

(** The inner loop of [ThingType.__init__], for one component. *)
Fixpoint register_ifaces (component : Cls) (ifaces : list Iface)
    (components : list (Iface * Cls)) : result (list (Iface * Cls)) :=
  match ifaces with
  | [] => Ok components
  | iface :: rest =>
      if bool_decide (iface = IComponent) then
        register_ifaces component rest components
      else if bool_decide (iface ∈ components.*1) then
        Raise TypeError
      else
        register_ifaces component rest (components ++ [(iface, component)])
  end.

(** The outer loop of [ThingType.__init__]. *)
Fixpoint register_components (cs : list Cls)
    (components : list (Iface * Cls)) : result (list (Iface * Cls)) :=
  match cs with
  | [] => Ok components
  | component :: rest =>
      let* components' :=
        register_ifaces component (implementedBy component) components in
      register_components rest components'
  end.

(** [ThingType.__init__]: the components are its positional arguments. *)
Definition ThingType_init (components : list Cls) (layer : Layer)
    (name : string) (tmp_rendering : string * string)
    (modifiers : list Modifier.t) : result (ThingType.t Cls) :=
  let* comps := register_components components [] in
  Ok {| ThingType.layer := layer;
        ThingType.name := name;
        ThingType.tmp_rendering := tmp_rendering;
        ThingType.modifiers := modifiers;
        ThingType.components := comps |}.

(** The capabilities a component contributes: what it implements, the
    marker [IComponent] left out. *)
Definition capabilities (c : Cls) : list Iface :=
  filter (fun iface => iface ≠ IComponent) (implementedBy c).

(** The entries one component contributes to the dict. *)
Definition entries (c : Cls) : list (Iface * Cls) :=
  map (fun iface => (iface, c)) (capabilities c).

(** Two of the supplied components (at two places of the argument list)
    implement one capability. *)
Definition duplicate_capability (cs : list Cls) : Prop :=
  exists (l1 l2 l3 : list Cls) (c1 c2 : Cls) (iface : Iface),
    cs = l1 ++ c1 :: l2 ++ c2 :: l3 /\
    iface ≠ IComponent /\
    iface ∈ implementedBy c1 /\ iface ∈ implementedBy c2.
End ThingTypeInit.

(** ** Events and the world *)

Module Event.
Section WithClass.
Context {EvC : Type}.

(** Modelled from the spec: [flax/event.py] is not part of the source
    tree.  An event carries its class ([type(event)]), an optional actor,
    an optional target of which the module reads only [.position], the
    payload [amount] of a damage event, and the [cancelled] flag. *)
Record t := {
  event_class : EvC;
  actor : option thing_id;
  target : option position;
  amount : option Z;
  cancelled : bool
}.

(** Modelled from the spec: [event.cancel()] sets [cancelled = true]. *)
Definition cancel (e : t) : t :=
  {| event_class := event_class e;
     actor := actor e;
     target := target e;
     amount := amount e;
     cancelled := true |}.
End WithClass.
Arguments t : clear implicits.
End Event.

(** An argument of an event constructor call. *)
Inductive arg :=
  | AThing (t : thing_id)
  | AInt (n : Z).

(** The calls the module makes on [event.world], the external collaborator.
    An event handed to [queue_immediate_event] is recorded as the constructor
    call that built it. *)
Inductive world_call {EvC : Type} :=
  | queue_immediate_event (cls : EvC) (args : list arg)
  | current_map_remove (entity : thing_id)
  | current_map_move (actor : option thing_id) (pos : position).
Arguments world_call : clear implicits.

Section StateDef.
Context {Cls EvC : Type}.

(** Everything the module can change: the entities, the calls made on the
    world so far (oldest first) and what [print] wrote. *)
Record State := {
  things : gmap thing_id (Thing.t Cls);
  world : list (world_call EvC);
  stdout : list string
}.

Definition set_things (st : State) (ts : gmap thing_id (Thing.t Cls)) : State :=
  {| things := ts; world := world st; stdout := stdout st |}.

Definition call_world (c : world_call EvC) (st : State) : State :=
  {| things := things st; world := world st ++ [c]; stdout := stdout st |}.

Definition print (line : string) (st : State) : State :=
  {| things := things st; world := world st; stdout := stdout st ++ [line] |}.

Definition get_thing (e : thing_id) (st : State) : result (Thing.t Cls) :=
  match things st !! e with
  | Some th => Ok th
  | None => Raise NoSuchThing
  end.

Definition put_thing (e : thing_id) (th : Thing.t Cls) (st : State) : State :=
  set_things st (<[e := th]> (things st)).

(** An instance of a component class: [component(iface, entity)],
    [Component.__init__]. *)
Record Component := {
  component_class : Cls;
  iface : Iface;
  entity : thing_id
}.

(** ** Attribute slots *)

(** [ComponentAttribute.__init__] *)
Record ComponentAttribute := {
  zope_attribute : Attr;
  initializer : Component -> value
}.

(** The loop [for mod in self.entity.modifiers: value = mod.modify(attr, value)] *)
Fixpoint apply_modifiers (mods : list Modifier.t) (attr : Attr) (v : value)
    : result value :=
  match mods with
  | [] => Ok v
  | m :: rest =>
      let* v' := Modifier.modify m attr v in
      apply_modifiers rest attr v'
  end.

(** [ComponentAttribute.__get__] on an instance.  An exception ends the
    run: the state reached is not kept. *)
Definition ComponentAttribute_get (desc : ComponentAttribute)
    (self : Component) (st : State) : result (value * State) :=
  let attr := zope_attribute desc in
  let* th := get_thing (entity self) st in
  let data := Thing.component_data th in
  let data :=
    if bool_decide (data !! attr = None)
    then <[attr := initializer desc self]> data
    else data in
  let st := put_thing (entity self) (Thing.set_data th data) st in
  let* v := match data !! attr with
            | Some v => Ok v
            | None => Raise KeyError
            end in
  let* v := apply_modifiers (Thing.modifiers th) attr v in
  Ok (v, st).

(** [ComponentAttribute.__set__] *)
Definition ComponentAttribute_set (desc : ComponentAttribute)
    (self : Component) (v : value) (st : State) : result State :=
  let* th := get_thing (entity self) st in
  let data := <[zope_attribute desc := v]> (Thing.component_data th) in
  Ok (put_thing (entity self) (Thing.set_data th data) st).

(** [attribute(iface)] applied to a function named [fname]. *)
Definition attribute (i : Iface) (fname : string) (f : Component -> value)
    : result ComponentAttribute :=
  let* a := Iface_getitem i fname in
  Ok {| zope_attribute := a; initializer := f |}.

(** [Thing.__conform__] *)
Definition Thing_conform (e : thing_id) (i : Iface) (st : State)
    : result Component :=
  let* th := get_thing e st in
  match list_find (fun p => p.1 = i) (ThingType.components (Thing.type th)) with
  | Some (_, (_, component)) =>
      Ok {| component_class := component; iface := i; entity := e |}
  | None => Raise KeyError
  end.

(** The property [Thing.layer] *)
Definition Thing_layer (th : Thing.t Cls) : Layer :=
  ThingType.layer (Thing.type th).
End StateDef.
Arguments State : clear implicits.
Arguments Component : clear implicits.
Arguments ComponentAttribute : clear implicits.

(** ** Handler registration: [Handler], [handler] and [ComponentMeta] *)

Section Registration.
(** [EvC]: event classes; [F]: function objects. *)
Context {EvC F : Type} `{EqDecision EvC}.

(** [Handler.__init__] *)
Record Handler := { func : F; event_classes : list EvC }.

(** What a decorator receives: a plain function or an earlier [Handler]. *)
Inductive decorated :=
  | Plain (f : F)
  | Wrapped (h : Handler).

(** [Handler.add] *)
Definition Handler_add (h : Handler) (event_class : EvC) : Handler :=
  {| func := func h; event_classes := event_classes h ++ [event_class] |}.

(** [Handler.wrap] *)
Definition Handler_wrap (f : decorated) (event_class : EvC) : Handler :=
  match f with
  | Wrapped h => Handler_add h event_class
  | Plain f => {| func := f; event_classes := [event_class] |}
  end.

(** The decorator [handler(event_class)] *)
Definition handler (event_class : EvC) (f : decorated) : decorated :=
  Wrapped (Handler_wrap f event_class).

(** A [defaultdict(list)] keyed by event class, in insertion order. *)
Definition table : Type := list (EvC * list F).

(** [d[key]] on a [defaultdict(list)]: a missing key reads as the empty
    list.  (Python also inserts the key then; the empty entry changes no
    later read, and the table is not threaded through dispatch.) *)
Fixpoint table_get (d : table) (key : EvC) : list F :=
  match d with
  | [] => []
  | (k, fs) :: rest => if bool_decide (k = key) then fs else table_get rest key
  end.

(** [d[key].append(f)] *)
Fixpoint table_append (d : table) (key : EvC) (f : F) : table :=
  match d with
  | [] => [(key, [f])]
  | (k, fs) :: rest =>
      if bool_decide (k = key) then (k, fs ++ [f]) :: rest
      else (k, fs) :: table_append rest key f
  end.

(** A value bound in a class body. *)
Inductive class_attr :=
  | AHandler (h : Handler)            (* an instance of [Handler] *)
  | ATable (event_handlers : table)   (* the table the metaclass stores *)
  | AMember.                          (* anything else *)

Definition as_attr (d : decorated) : class_attr :=
  match d with
  | Wrapped h => AHandler h
  | Plain _ => AMember
  end.

(** A class namespace: a dict from names to values, in insertion order. *)
Definition namespace : Type := list (string * class_attr).

(** [del attrs[key]] *)
Definition dict_del (attrs : namespace) (key : string) : namespace :=
  filter (fun p => p.1 ≠ key) attrs.

(** [attrs[key] = v]: an existing key keeps its place. *)
Fixpoint dict_set (attrs : namespace) (key : string) (v : class_attr)
    : namespace :=
  match attrs with
  | [] => [(key, v)]
  | (k, x) :: rest =>
      if bool_decide (k = key) then (k, v) :: rest
      else (k, x) :: dict_set rest key v
  end.

Fixpoint dict_get (attrs : namespace) (key : string) : option class_attr :=
  match attrs with
  | [] => None
  | (k, x) :: rest =>
      if bool_decide (k = key) then Some x else dict_get rest key
  end.

(** A class object: its name, its bases and its namespace. *)
Inductive PyClass :=
  | mk_class (cls_name : string) (cls_bases : list PyClass)
             (cls_dict : namespace).

Definition cls_dict (c : PyClass) : namespace :=
  match c with mk_class _ _ d => d end.

Definition cls_bases (c : PyClass) : list PyClass :=
  match c with mk_class _ b _ => b end.

(** [for cls in value.event_classes: event_handlers[cls].append(value.func)] *)
Definition register_handler (event_handlers : table) (h : Handler) : table :=
  fold_left (fun eh cls => table_append eh cls (func h))
            (event_classes h) event_handlers.

(** The loop of [ComponentMeta.__new__] over [list(attrs.items())]: the
    table built so far and the namespace with the handlers deleted. *)
Fixpoint collect_handlers (items : namespace) (event_handlers : table)
    (attrs : namespace) : table * namespace :=
  match items with
  | [] => (event_handlers, attrs)
  | (key, v) :: rest =>
      match v with
      | AHandler h =>
          collect_handlers rest (register_handler event_handlers h)
                           (dict_del attrs key)
      | _ => collect_handlers rest event_handlers attrs
      end
  end.

(** [ComponentMeta.__new__(meta, name, bases, attrs)] *)
Definition ComponentMeta_new (name : string) (bases : list PyClass)
    (attrs : namespace) : PyClass :=
  let '(event_handlers, attrs) := collect_handlers attrs [] attrs in
  let attrs := dict_set attrs "event_handlers" (ATable event_handlers) in
  mk_class name bases attrs.

(** Attribute lookup on a class: its own namespace, then its bases (left to
    right, depth first). *)
Fixpoint class_getattr (c : PyClass) (key : string) : option class_attr :=
  match c with
  | mk_class _ bases d =>
      match dict_get d key with
      | Some v => Some v
      | None =>
          (fix search (bs : list PyClass) : option class_attr :=
             match bs with
             | [] => None
             | b :: bs' =>
                 match class_getattr b key with
                 | Some v => Some v
                 | None => search bs'
                 end
             end) bases
      end
  end.

(** [self.event_handlers] as an instance of class [c] sees it. *)
Definition class_event_handlers (c : PyClass) : table :=
  match class_getattr c "event_handlers" with
  | Some (ATable t) => t
  | _ => []
  end.

(** The functions declared for event class [c] in a class body, in
    declaration order: one entry for each time a handler names [c]. *)
Definition declared_for (attrs : namespace) (c : EvC) : list F :=
  flat_map (fun p =>
              match p.2 with
              | AHandler h =>
                  flat_map (fun c' => if bool_decide (c' = c) then [func h] else [])
                           (event_classes h)
              | _ => []
              end) attrs.
End Registration.
Arguments Handler : clear implicits.
Arguments decorated : clear implicits.
Arguments table : clear implicits.
Arguments class_attr : clear implicits.
Arguments namespace : clear implicits.
Arguments PyClass : clear implicits.

(** ** Event dispatch *)

Section Dispatch.
Context {Cls EvC : Type} `{EqDecision EvC}.

(** A handler function [f(self, event)]: it may mutate the event and the
    state, or raise. *)
Definition handler_fn : Type :=
  Component Cls -> Event.t EvC -> State Cls EvC ->
  result (Event.t EvC * State Cls EvC).

(** The class attribute [event_handlers] of each component class. *)
Variable event_handlers : Cls -> table EvC handler_fn.
(** [cls.__mro__] for the event classes. *)
Variable mro : EvC -> list EvC.

(** [for handler in handlers: handler(thing, event)] *)
Fixpoint run_handlers (handlers : list handler_fn) (thing : Component Cls)
    (event : Event.t EvC) (st : State Cls EvC)
    : result (Event.t EvC * State Cls EvC) :=
  match handlers with
  | [] => Ok (event, st)
  | h :: rest =>
      let* '(event', st') := h thing event st in
      run_handlers rest thing event' st'
  end.

(** The outer loop of [Component.handle_event] over the classes of the
    MRO. *)
Fixpoint handle_event_classes (self : Component Cls) (classes : list EvC)
    (thing : Component Cls) (event : Event.t EvC) (st : State Cls EvC)
    : result (Event.t EvC * State Cls EvC) :=
  match classes with
  | [] => Ok (event, st)
  | event_class :: rest =>
      let* '(event', st') :=
        run_handlers
          (table_get (event_handlers (component_class self)) event_class)
          thing event st in
      handle_event_classes self rest thing event' st'
  end.

(** [Component.handle_event(self, thing, event)] *)
Definition Component_handle_event (self thing : Component Cls)
    (event : Event.t EvC) (st : State Cls EvC)
    : result (Event.t EvC * State Cls EvC) :=
  handle_event_classes self (mro (Event.event_class event)) thing event st.

(** The loop of [Thing.handle_event] over [self.type.components.items()]. *)
Fixpoint handle_event_items (e : thing_id) (items : list (Iface * Cls))
    (event : Event.t EvC) (st : State Cls EvC)
    : result (Event.t EvC * State Cls EvC) :=
  match items with
  | [] => Ok (event, st)
  | (i, component) :: rest =>
      let adapted :=
        {| component_class := component; iface := i; entity := e |} in
      let* '(event', st') := Component_handle_event adapted adapted event st in
      handle_event_items e rest event' st'
  end.

(** [Thing.handle_event(self, event)] *)
Definition Thing_handle_event (e : thing_id) (event : Event.t EvC)
    (st : State Cls EvC) : result (Event.t EvC * State Cls EvC) :=
  let* th := get_thing e st in
  handle_event_items e (ThingType.components (Thing.type th)) event st.

(** The handlers a component instance runs for an event, in the order
    [Component.handle_event] reaches them. *)
Definition handlers_for (c : Cls) (cls : EvC) : list handler_fn :=
  flat_map (table_get (event_handlers c)) (mro cls).
End Dispatch.
Arguments handler_fn : clear implicits.

(** ** The components and entity types the module defines *)

(** Modelled from the spec: [flax/event.py] is not part of the source tree.
    The event classes the module imports, the root event type and Python's
    [object]. *)
Inductive EventClass :=
  | Walk | PickUp | MeleeAttack | Damage | Die | Equip
  | EventBase | PyObject.

Global Instance EventClass_eq_dec : EqDecision EventClass.
Proof. solve_decision. Defined.

(** Modelled from the spec: the type hierarchy of an event, the concrete type
    first, then each ancestor up to the root event type; every imported class
    derives from the root directly, and [object] ends every MRO. *)
Definition flax_mro (c : EventClass) : list EventClass :=
  match c with
  | PyObject => [PyObject]
  | EventBase => [EventBase; PyObject]
  | _ => [c; EventBase; PyObject]
  end.

(** The component classes of the module. *)
Inductive ComponentClass :=
  | Solid | Container | Empty | Combatant | GenericAI
  | PlayerIntelligence | Portable | UsablePotion | Equipment.

Global Instance ComponentClass_eq_dec : EqDecision ComponentClass.
Proof. solve_decision. Defined.

(** [zi.implementedBy]: the interface of the class's own [@zi.implementer],
    then what it inherits from [Component]. *)
Definition implementedBy (c : ComponentClass) : list Iface :=
  match c with
  | Solid | Empty => [IPhysics; IComponent]
  | Container => [IContainer; IComponent]
  | Combatant => [ICombatant; IComponent]
  | GenericAI | PlayerIntelligence => [IActor; IComponent]
  | Portable => [IPortable; IComponent]
  | UsablePotion => [IUsable; IComponent]
  | Equipment => [IEquipment; IComponent]
  end.

Abbreviation FState := (State ComponentClass EventClass).
Abbreviation FEvent := (Event.t EventClass).
Abbreviation FComponent := (Component ComponentClass).
Abbreviation FHandler := (handler_fn ComponentClass EventClass).

(** [None.attr] and [obj.missing] raise [AttributeError]. *)
Definition getattr {A} (o : option A) : result A :=
  match o with
  | Some a => Ok a
  | None => Raise AttributeError
  end.

(** [Solid.blocks], [Empty.blocks] *)
Definition Solid_blocks (self : FComponent) (actor : thing_id) : bool := true.
Definition Empty_blocks (self : FComponent) (actor : thing_id) : bool := false.

(** [Solid.handle_walk] *)
Definition Solid_handle_walk : FHandler :=
  fun self event st => Ok (Event.cancel event, st).

(** [Empty.handle_walk] *)
Definition Empty_handle_walk : FHandler :=
  fun self event st =>
    let* pos := getattr (Event.target event) in
    Ok (event, call_world (current_map_move (Event.actor event) pos) st).

(** [Container.inventory] *)
Definition Container_inventory : ComponentAttribute ComponentClass :=
  {| zope_attribute := {| attr_iface := IContainer; attr_name := "inventory" |};
     initializer := fun _ => VList [] |}.

(** [Combatant.health] *)
Definition Combatant_health : ComponentAttribute ComponentClass :=
  {| zope_attribute := {| attr_iface := ICombatant; attr_name := "health" |};
     initializer := fun _ => VInt 10 |}.

(** [Combatant.strength] *)
Definition Combatant_strength : ComponentAttribute ComponentClass :=
  {| zope_attribute := {| attr_iface := ICombatant; attr_name := "strength" |};
     initializer := fun _ => VInt 3 |}.

(** The descriptors a component class binds, by name. *)
Definition class_descriptor (c : ComponentClass) (name : string)
    : option (ComponentAttribute ComponentClass) :=
  match c with
  | Container =>
      if bool_decide (name = "inventory") then Some Container_inventory else None
  | Combatant =>
      if bool_decide (name = "health") then Some Combatant_health
      else if bool_decide (name = "strength") then Some Combatant_strength
      else None
  | _ => None
  end.

(** [Combatant.handle_damage] *)
Definition Combatant_handle_damage : FHandler :=
  fun self event st =>
    (* self.health -= event.amount *)
    let* '(health, st) := ComponentAttribute_get Combatant_health self st in
    let* amount := getattr (Event.amount event) in
    let* health := py_sub health amount in
    let* st := ComponentAttribute_set Combatant_health self health st in
    (* if self.health <= 0: *)
    let* '(health, st) := ComponentAttribute_get Combatant_health self st in
    let* dead := py_le0 health in
    if dead then
      Ok (event, call_world (queue_immediate_event Die [AThing (entity self)]) st)
    else Ok (event, st).

(** [Combatant.handle_attack] *)
Definition Combatant_handle_attack : FHandler :=
  fun self event st =>
    let* a := getattr (Event.actor event) in
    let* attacker := get_thing a st in
    let* me := get_thing (entity self) st in
    let st := print (ThingType.name (Thing.type attacker) ++ " hits "
                     ++ ThingType.name (Thing.type me))%string st in
    Ok (event,
        call_world (queue_immediate_event Damage [AThing (entity self); AInt 5]) st).

(** [Combatant.handle_death] *)
Definition Combatant_handle_death : FHandler :=
  fun self event st =>
    let* me := get_thing (entity self) st in
    let st := print (ThingType.name (Thing.type me) ++ " has died")%string st in
    Ok (event, call_world (current_map_remove (entity self)) st).

(** [Portable.handle_picked_up].  [IContainer(event.actor)] is
    [Thing.__conform__]; adapting [None] is a [TypeError].  [append] mutates
    the stored list in place. *)
Definition Portable_handle_picked_up : FHandler :=
  fun self event st =>
    let* me := get_thing (entity self) st in
    let st := print ("ooh picking up " ++ ThingType.name (Thing.type me))%string st in
    if bool_decide (Thing_layer me ≠ item) then Raise AssertionError else
    let st := call_world (current_map_remove (entity self)) st in
    let* a := match Event.actor event with
              | Some a => Ok a
              | None => Raise TypeError
              end in
    let* container := Thing_conform a IContainer st in
    let* desc := getattr (class_descriptor (component_class container) "inventory") in
    let* '(inventory, st) := ComponentAttribute_get desc container st in
    match inventory with
    | VList items =>
        let* st := ComponentAttribute_set desc container
                     (VList (items ++ [entity self])) st in
        Ok (event, st)
    | VInt _ => Raise AttributeError
    end.

(** [Equipment.handle_equip] *)
Definition Equipment_handle_equip : FHandler :=
  fun self event st =>
    let st := print "you put on the armor" st in
    let* a := getattr (Event.actor event) in
    let* wearer := get_thing a st in
    let* me := get_thing (entity self) st in
    let wearer' :=
      Thing.add_modifiers wearer (ThingType.modifiers (Thing.type me)) in
    Ok (event, put_thing a wearer' st).

(** The class objects, as the metaclass builds them from the class bodies. *)
Definition Component_class : PyClass EventClass FHandler :=
  ComponentMeta_new "Component" []
    [("__init__", AMember); ("handle_event", AMember)].

Definition class_of (c : ComponentClass) : PyClass EventClass FHandler :=
  match c with
  | Solid =>
      ComponentMeta_new "Solid" [Component_class]
        [("blocks", AMember);
         ("handle_walk", as_attr (handler Walk (Plain Solid_handle_walk)))]
  | Container =>
      ComponentMeta_new "Container" [Component_class]
        [("inventory", AMember)]
  | Empty =>
      ComponentMeta_new "Empty" [Component_class]
        [("blocks", AMember);
         ("handle_walk", as_attr (handler Walk (Plain Empty_handle_walk)))]
  | Combatant =>
      ComponentMeta_new "Combatant" [Component_class]
        [("__init__", AMember); ("health", AMember); ("strength", AMember);
         ("handle_damage", as_attr (handler Damage (Plain Combatant_handle_damage)));
         ("handle_attack", as_attr (handler MeleeAttack (Plain Combatant_handle_attack)));
         ("handle_death", as_attr (handler Die (Plain Combatant_handle_death)))]
  | GenericAI =>
      ComponentMeta_new "GenericAI" [Component_class] [("act", AMember)]
  | PlayerIntelligence =>
      ComponentMeta_new "PlayerIntelligence" [Component_class] [("act", AMember)]
  | Portable =>
      ComponentMeta_new "Portable" [Component_class]
        [("handle_picked_up", as_attr (handler PickUp (Plain Portable_handle_picked_up)))]
  | UsablePotion =>
      ComponentMeta_new "UsablePotion" [Component_class] [("use", AMember)]
  | Equipment =>
      ComponentMeta_new "Equipment" [Component_class]
        [("handle_equip", as_attr (handler Equip (Plain Equipment_handle_equip)))]
  end.

(** [cls.event_handlers] for the component classes of the module. *)
Definition event_handlers (c : ComponentClass) : table EventClass FHandler :=
  class_event_handlers (class_of c).

(** [Thing.handle_event] for the entities of the module. *)
Definition handle_event : thing_id -> FEvent -> FState -> result (FEvent * FState) :=
  Thing_handle_event event_handlers flax_mro.

(** [Architecture], [Creature] and [Item]: [partial(ThingType, ...)] *)
Definition Architecture (cs : list ComponentClass) (name : string)
    (tmp_rendering : string * string) : result (ThingType.t ComponentClass) :=
  ThingType_init implementedBy cs architecture name tmp_rendering [].

Definition Creature (cs : list ComponentClass) (name : string)
    (tmp_rendering : string * string) : result (ThingType.t ComponentClass) :=
  ThingType_init implementedBy ([Solid; Combatant; Container] ++ cs)
                 creature name tmp_rendering [].

Definition Item (cs : list ComponentClass) (name : string)
    (tmp_rendering : string * string) (modifiers : list Modifier.t)
    : result (ThingType.t ComponentClass) :=
  ThingType_init implementedBy (Portable :: cs) item name tmp_rendering modifiers.

Definition Wall := Architecture [Solid] "wall" ("▒", "default").
Definition Floor := Architecture [Empty] "dirt" ("·", "floor").
Definition Player := Creature [PlayerIntelligence] "you" ("☻", "player").
Definition Salamango := Creature [GenericAI] "salamango" (":", "salamango").
Definition Potion := Item [UsablePotion] "potion" ("ð", "default") [].

(** [ICombatant['strength']] *)
Definition strength_attr : Attr :=
  {| attr_iface := ICombatant; attr_name := "strength" |}.

(** [ICombatant['health']] *)
Definition health_attr : Attr :=
  {| attr_iface := ICombatant; attr_name := "health" |}.

Definition Armor :=
  Item [Equipment] "armor" ("[", "default")
       [{| Modifier.stat := strength_attr; Modifier.add := 3 |}].

(** ** Derived notions used by the statements *)

(** The total the modifiers of a list add to one slot. *)
Fixpoint sum_adds (attr : Attr) (mods : list Modifier.t) : Z :=
  match mods with
  | [] => 0
  | m :: rest =>
      (if bool_decide (attr = Modifier.stat m) then Modifier.add m else 0)
      + sum_adds attr rest
  end.

(** The read the specification describes: the modifiers of the entity's type
    first, then the entity's own. *)
Definition spec_read_after_write {Cls : Type} (th : Thing.t Cls) (attr : Attr)
    (written : Z) : value :=
  VInt (written
        + sum_adds attr (ThingType.modifiers (Thing.type th) ++ Thing.modifiers th)).

Section Sequences.
Context {Cls EvC : Type} `{EqDecision EvC}.
Variable event_handlers : Cls -> table EvC (handler_fn Cls EvC).
Variable mro : EvC -> list EvC.

(** Every handler an entity's components hold for an event of class [cls],
    each with the component instance it is called on: components in the
    order of the type's dict, classes in MRO order, handlers in table
    order. *)
Definition bound_handlers (e : thing_id) (items : list (Iface * Cls))
    (cls : EvC) : list (Component Cls * handler_fn Cls EvC) :=
  flat_map (fun p =>
              let adapted :=
                {| component_class := p.2; iface := p.1; entity := e |} in
              map (fun h => (adapted, h))
                  (flat_map (table_get (event_handlers p.2)) (mro cls)))
           items.

(** Calling a sequence of bound handlers one after the other. *)
Fixpoint run_bound (hs : list (Component Cls * handler_fn Cls EvC))
    (event : Event.t EvC) (st : State Cls EvC)
    : result (Event.t EvC * State Cls EvC) :=
  match hs with
  | [] => Ok (event, st)
  | (self, h) :: rest =>
      let* '(event', st') := h self event st in
      run_bound rest event' st'
  end.
End Sequences.

(** Reading a slot of entity [e] in a state: the stored raw value. *)
Definition stored {Cls EvC : Type} (st : State Cls EvC) (e : thing_id)
    (attr : Attr) : option value :=
  match things st !! e with
  | Some th => Thing.component_data th !! attr
  | None => None
  end.

(** A [Damage], [Die], [Walk] or [Equip] event as the dispatcher receives it. *)
Definition mk_event (cls : EventClass) (actor : option thing_id)
    (target : option position) (amount : option Z) : FEvent :=
  {| Event.event_class := cls; Event.actor := actor; Event.target := target;
     Event.amount := amount; Event.cancelled := false |}.

(** ** Concrete entities used as test inputs *)

(** A type carrying one type-level modifier, strength +3, with the
    [Combatant] component: [ThingType(Combatant, layer=Layer.creature,
    name='veteran', tmp_rendering=('v', 'default'),
    modifiers=[Modifier(ICombatant['strength'], add=3)])]. *)
Definition veteran_type : ThingType.t ComponentClass :=
  {| ThingType.layer := creature;
     ThingType.name := "veteran";
     ThingType.tmp_rendering := ("v", "default");
     ThingType.modifiers :=
       [{| Modifier.stat := strength_attr; Modifier.add := 3 |}];
     ThingType.components := [(ICombatant, Combatant)] |}.

(** One fresh entity of that type, under identity 1. *)
Definition veteran_state : FState :=
  {| things := {[ 1%nat := Thing.init veteran_type ]};
     world := [];
     stdout := [] |}.

(** [ICombatant(entity)] for entity 1. *)
Definition combatant_1 : FComponent :=
  {| component_class := Combatant; iface := ICombatant; entity := 1%nat |}.

(** The one capability each component class of the module implements. *)
Definition capability_of (c : ComponentClass) : Iface :=
  match c with
  | Solid | Empty => IPhysics
  | Container => IContainer
  | Combatant => ICombatant
  | GenericAI | PlayerIntelligence => IActor
  | Portable => IPortable
  | UsablePotion => IUsable
  | Equipment => IEquipment
  end.

(** The handlers a component class of the module runs for an event class. *)
Definition handlers_of (c : ComponentClass) (cls : EventClass) : list FHandler :=
  flat_map (table_get (event_handlers c)) (flax_mro cls).

(** The value of [Player]. *)
Definition player_type : ThingType.t ComponentClass :=
  {| ThingType.layer := creature;
     ThingType.name := "you";
     ThingType.tmp_rendering := ("☻", "player");
     ThingType.modifiers := [];
     ThingType.components :=
       [(IPhysics, Solid); (ICombatant, Combatant); (IContainer, Container);
        (IActor, PlayerIntelligence)] |}.

(** The value of [Armor]. *)
Definition armor_type : ThingType.t ComponentClass :=
  {| ThingType.layer := item;
     ThingType.name := "armor";
     ThingType.tmp_rendering := ("[", "default");
     ThingType.modifiers :=
       [{| Modifier.stat := strength_attr; Modifier.add := 3 |}];
     ThingType.components := [(IPortable, Portable); (IEquipment, Equipment)] |}.

(** The value of [Wall]. *)
Definition wall_type : ThingType.t ComponentClass :=
  {| ThingType.layer := architecture;
     ThingType.name := "wall";
     ThingType.tmp_rendering := ("▒", "default");
     ThingType.modifiers := [];
     ThingType.components := [(IPhysics, Solid)] |}.

(** A fresh player (1), a fresh armor (2) and a wall (3). *)
Definition small_world : FState :=
  {| things := {[ 1%nat := Thing.init player_type;
                  2%nat := Thing.init armor_type;
                  3%nat := Thing.init wall_type ]};
     world := [];
     stdout := [] |}.

(** A player with health 10 written and one modifier of its own, health +2. *)
Definition blessed_player : Thing.t ComponentClass :=
  {| Thing.type := player_type;
     Thing.modifiers := [{| Modifier.stat := health_attr; Modifier.add := 2 |}];
     Thing.component_data := {[ health_attr := VInt 10 ]} |}.

Definition blessed_world : FState :=
  {| things := {[ 1%nat := blessed_player ]}; world := []; stdout := [] |}.

(** ** Further parts of the sources *)

(** Decorators stacked over one function, listed top to bottom as they are
    written: [@handler(A)] over [@handler(B)] over [def f] is
    [handler(A)(handler(B)(f))]. *)
Definition stacked {EvC F : Type} (classes : list EvC) (f : F) : decorated EvC F :=
  fold_right handler (Plain f) classes.

(** The handler tables of the component classes, written out. *)
Definition module_table (c : ComponentClass) (cls : EventClass) : list FHandler :=
  match c, cls with
  | Solid, Walk => [Solid_handle_walk]
  | Empty, Walk => [Empty_handle_walk]
  | Combatant, Damage => [Combatant_handle_damage]
  | Combatant, MeleeAttack => [Combatant_handle_attack]
  | Combatant, Die => [Combatant_handle_death]
  | Portable, PickUp => [Portable_handle_picked_up]
  | Equipment, Equip => [Equipment_handle_equip]
  | _, _ => []
  end.

(** What one entity may become while events are handled: its type stays, its
    modifier list and the set of its stored slots only grow. *)
Definition thing_grows (th th' : Thing.t ComponentClass) : Prop :=
  Thing.type th' = Thing.type th /\
  Thing.modifiers th `prefix_of` Thing.modifiers th' /\
  (forall a, is_Some (Thing.component_data th !! a) ->
             is_Some (Thing.component_data th' !! a)).

(** What a state may become: the same entities, each grown; the calls on the
    world and the printed lines are only appended to. *)
Definition state_grows (st st' : FState) : Prop :=
  (forall x, option_Forall2 thing_grows (things st !! x) (things st' !! x)) /\
  world st `prefix_of` world st' /\
  stdout st `prefix_of` stdout st'.

(** What an event may become: everything but the flag stays, and the flag is
    never cleared. *)
Definition event_kept (ev ev' : FEvent) : Prop :=
  Event.event_class ev' = Event.event_class ev /\
  Event.actor ev' = Event.actor ev /\
  Event.target ev' = Event.target ev /\
  Event.amount ev' = Event.amount ev /\
  (Event.cancelled ev = true -> Event.cancelled ev' = true).

(** [GenericAI.act].  [flax.geometry] and the world are not part of the
    source tree: the members of [Direction] in iteration order, [pos +
    direction], [world.current_map.find(x).position], [world.player] and the
    index [random.choice] draws are parameters. *)
Section GenericAIAct.
Context {Cls D : Type}.
Variable directions : list D.
Variable step : position -> D -> position.
Variable find_position : thing_id -> position.
Variable player : thing_id.
Variable randbelow : nat -> nat.

(** The event [act] hands to [world.queue_event]. *)
Inductive queued_event :=
  | queue_MeleeAttack (entity : thing_id) (direction : D)
  | queue_Walk (entity : thing_id) (direction : D).

(** The loop [for direction in Direction], left at the first direction that
    leads to the player. *)
Fixpoint first_towards (ds : list D) (pos player_pos : position) : option D :=
  match ds with
  | [] => None
  | direction :: rest =>
      if bool_decide (step pos direction = player_pos) then Some direction
      else first_towards rest pos player_pos
  end.

(** [random.choice(seq)]: [seq[randbelow(len(seq))]]; [None] stands for the
    [IndexError] of an empty sequence. *)
Definition random_choice (seq : list D) : option D :=
  match seq with
  | [] => None
  | _ => seq !! randbelow (length seq)
  end.

Definition GenericAI_act (self : Component Cls) : option queued_event :=
  let pos := find_position (entity self) in
  let player_pos := find_position player in
  match first_towards directions pos player_pos with
  | Some direction => Some (queue_MeleeAttack (entity self) direction)
  | None =>
      match random_choice directions with
      | Some direction => Some (queue_Walk (entity self) direction)
      | None => None
      end
  end.
End GenericAIAct.
Arguments queued_event : clear implicits.

(** [CellWidget._adjust_viewport] of [flax/ui/console/game.py].  [Span] comes
    from [flax.geometry], which is not part of the source tree: its type, its
    [start] and [end], [shift_into_view] (with its optional margin), [scale]
    and [+] are parameters. *)
Section AdjustViewport.
Context {Span : Type}.
Variable span_start span_end : Span -> Z.
Variable shift_into_view : Span -> Z -> option Z -> Span.
Variable scale : Span -> Z -> Z -> Span.
Variable span_add : Span -> Z -> Span.

(** [CellWidget.MAP_MARGIN] *)
Definition MAP_MARGIN : Z := 4.

(** [min(self.MAP_MARGIN, (width - 1) // 2)] *)
Definition viewport_margin (width : Z) : Z :=
  Z.min MAP_MARGIN ((width - 1) `div` 2).

Definition _adjust_viewport (viewport : Span) (width pos : Z) (bounds : Span)
    : Span :=
  let viewport := shift_into_view viewport pos None in
  let viewport := scale viewport width pos in
  let margin := viewport_margin width in
  let viewport := shift_into_view viewport pos (Some margin) in
  let move := Z.max 0 (span_start bounds - span_start viewport) in
  let move :=
    Z.min move
          (Z.max (span_end bounds) (span_start bounds + width)
           - span_end viewport) in
  span_add viewport move.
End AdjustViewport.

(** A span as a pair of ends, to try [_adjust_viewport] on. *)
Definition pair_shift_into_view (s : Z * Z) (pos : Z) (margin : option Z) : Z * Z :=
  let m := default 0 margin in
  if bool_decide (pos - m < s.1) then (pos - m, s.2 - (s.1 - (pos - m)))
  else if bool_decide (s.2 < pos + m) then (s.1 + (pos + m - s.2), pos + m)
  else s.

Definition pair_scale (s : Z * Z) (width pivot : Z) : Z * Z := (s.1, s.1 + width).

Definition pair_add (s : Z * Z) (k : Z) : Z * Z := (s.1 + k, s.2 + k).

(** A player (1) holding nothing and a potion (2) lying about. *)
Definition potion_type : ThingType.t ComponentClass :=
  {| ThingType.layer := item;
     ThingType.name := "potion";
     ThingType.tmp_rendering := ("ð", "default");
     ThingType.modifiers := [];
     ThingType.components := [(IPortable, Portable); (IUsable, UsablePotion)] |}.

Definition floor_type : ThingType.t ComponentClass :=
  {| ThingType.layer := architecture;
     ThingType.name := "dirt";
     ThingType.tmp_rendering := ("·", "floor");
     ThingType.modifiers := [];
     ThingType.components := [(IPhysics, Empty)] |}.

Definition cellar : FState :=
  {| things := {[ 1%nat := Thing.init player_type;
                  2%nat := Thing.init potion_type;
                  3%nat := Thing.init floor_type ]};
     world := [];
     stdout := [] |}.

(** A handler that keeps to [state_grows] and [event_kept]. *)
Definition handler_keeps (h : FHandler) : Prop :=
  forall self ev st ev' st',
    h self ev st = Ok (ev', st') -> state_grows st st' /\ event_kept ev ev'.

(** [IContainer['inventory']] *)
Definition inventory_attr : Attr :=
  {| attr_iface := IContainer; attr_name := "inventory" |}.

(** The value of [Salamango]. *)
Definition salamango_type : ThingType.t ComponentClass :=
  {| ThingType.layer := creature;
     ThingType.name := "salamango";
     ThingType.tmp_rendering := (":", "salamango");
     ThingType.modifiers := [];
     ThingType.components :=
       [(IPhysics, Solid); (ICombatant, Combatant); (IContainer, Container);
        (IActor, GenericAI)] |}.

(** A player (1) facing a salamango (2). *)
Definition arena : FState :=
  {| things := {[ 1%nat := Thing.init player_type;
                  2%nat := Thing.init salamango_type ]};
     world := [];
     stdout := [] |}.

(** A player who carries entity 7 and has one modifier, strength +3. *)
Definition laden_player : Thing.t ComponentClass :=
  {| Thing.type := player_type;
     Thing.modifiers := [{| Modifier.stat := strength_attr; Modifier.add := 3 |}];
     Thing.component_data := {[ inventory_attr := VList [7%nat] ]} |}.

Definition laden_world : FState :=
  {| things := {[ 1%nat := laden_player ]}; world := []; stdout := [] |}.

(** [IContainer(entity)] for entity 1. *)
Definition container_1 : FComponent :=
  {| component_class := Container; iface := IContainer; entity := 1%nat |}.

(** The four straight directions as offsets, and a step by an offset. *)
Definition straight_directions : list position := [(0, -1); (0, 1); (-1, 0); (1, 0)].

Definition offset_step (p d : position) : position := (p.1 + d.1, p.2 + d.2).

(** Entity 1, the player, stands at the origin; every other entity one step
    to its right. *)
Definition row_positions (e : thing_id) : position :=
  if bool_decide (e = 1%nat) then (0, 0) else (1, 0).

(** A component class whose only handler is registered for the root event
    type: [@handler(Event) def on_event(self, event): event.cancel()]. *)
Definition listener_class : PyClass EventClass FHandler :=
  ComponentMeta_new "Listener" [Component_class]
    [("on_event", as_attr (handler EventBase (Plain Solid_handle_walk)))].

(** Handler tables under which every component class is that listener. *)
Definition listener_handlers (c : ComponentClass) : table EventClass FHandler :=
  class_event_handlers listener_class.

(** * Properties *)

(** ** Results and small facts *)

Lemma apply_modifiers_int (mods : list Modifier.t) (attr : Attr) (z : Z) :
  apply_modifiers mods attr (VInt z) = Ok (VInt (z + sum_adds attr mods)).
Proof.
  revert z. induction mods as [|m mods IH]; intros z; simpl.
  - f_equal. f_equal. lia.
  - unfold Modifier.modify. destruct (decide (attr = Modifier.stat m)) as [Heq|Hne].
    + rewrite (bool_decide_eq_false_2 (attr ≠ Modifier.stat m)) by tauto.
      rewrite (bool_decide_eq_true_2 _ Heq). simpl. rewrite IH.
      f_equal; f_equal; lia.
    + rewrite (bool_decide_eq_true_2 (attr ≠ Modifier.stat m)) by done.
      rewrite (bool_decide_eq_false_2 _ Hne). simpl. rewrite IH.
      f_equal; f_equal; lia.
Qed.

Lemma sum_adds_app (attr : Attr) (l1 l2 : list Modifier.t) :
  sum_adds attr (l1 ++ l2) = sum_adds attr l1 + sum_adds attr l2.
Proof. induction l1 as [|m l1 IH]; simpl; [done | rewrite IH; lia]. Qed.

Section SlotFacts.
Context {Cls EvC : Type}.
Implicit Types (st : State Cls EvC) (th : Thing.t Cls) (self : Component Cls).
Implicit Types (desc : ComponentAttribute Cls).

Lemma get_thing_put e th st : get_thing e (put_thing e th st) = Ok th.
Proof. unfold get_thing, put_thing. simpl. by rewrite lookup_insert_eq. Qed.

Lemma get_thing_put_ne e e' th st :
  e ≠ e' -> get_thing e' (put_thing e th st) = get_thing e' st.
Proof.
  intros Hne. unfold get_thing, put_thing. simpl.
  by rewrite lookup_insert_ne.
Qed.

Lemma get_thing_Ok e th st : get_thing e st = Ok th <-> things st !! e = Some th.
Proof.
  unfold get_thing. destruct (things st !! e); split; intros H;
    try congruence; by inversion H.
Qed.

Lemma put_thing_same e th st : get_thing e st = Ok th -> put_thing e th st = st.
Proof.
  intros H%get_thing_Ok. destruct st as [ts w o]. unfold put_thing, set_things.
  simpl in *. f_equal. by apply insert_id.
Qed.

Lemma put_thing_put e th th' st :
  put_thing e th' (put_thing e th st) = put_thing e th' st.
Proof.
  unfold put_thing, set_things. simpl. f_equal. apply insert_insert_eq.
Qed.

Lemma set_data_same th : Thing.set_data th (Thing.component_data th) = th.
Proof. by destruct th. Qed.

Lemma set_data_set_data th (d1 d2 : gmap Attr value) :
  Thing.set_data (Thing.set_data th d1) d2 = Thing.set_data th d2.
Proof. done. Qed.

(** A slot already stored: the read changes nothing. *)
Lemma get_stored desc self st th v :
  get_thing (entity self) st = Ok th ->
  Thing.component_data th !! zope_attribute desc = Some v ->
  ComponentAttribute_get desc self st =
    let* v' := apply_modifiers (Thing.modifiers th) (zope_attribute desc) v in
    Ok (v', st).
Proof.
  intros Hth Hv. unfold ComponentAttribute_get. rewrite Hth. simpl.
  rewrite bool_decide_eq_false_2 by congruence.
  rewrite Hv. simpl. rewrite set_data_same, (put_thing_same _ _ _ Hth). done.
Qed.

(** A slot not stored yet: the default is stored raw, then modified. *)
Lemma get_fresh desc self st th :
  get_thing (entity self) st = Ok th ->
  Thing.component_data th !! zope_attribute desc = None ->
  ComponentAttribute_get desc self st =
    let* v' := apply_modifiers (Thing.modifiers th) (zope_attribute desc)
                               (initializer desc self) in
    Ok (v', put_thing (entity self)
              (Thing.set_data th (<[zope_attribute desc := initializer desc self]>
                                    (Thing.component_data th))) st).
Proof.
  intros Hth Hv. unfold ComponentAttribute_get. rewrite Hth. simpl.
  rewrite bool_decide_eq_true_2 by done.
  rewrite lookup_insert_eq. done.
Qed.

Lemma set_Ok desc self st th v :
  get_thing (entity self) st = Ok th ->
  ComponentAttribute_set desc self v st =
    Ok (put_thing (entity self)
          (Thing.set_data th (<[zope_attribute desc := v]>
                                (Thing.component_data th))) st).
Proof. intros Hth. unfold ComponentAttribute_set. by rewrite Hth. Qed.
End SlotFacts.

(** ** Attribute slots: write then read, lazy defaults *)

Section SlotProperties.
Context {Cls EvC : Type}.
Implicit Types (st : State Cls EvC) (th : Thing.t Cls) (self : Component Cls).
Implicit Types (desc : ComponentAttribute Cls).

(** C1 (as amended).  Writing an integer to a slot and reading it back
    returns the written value plus the sum of the [add] deltas of the
    modifiers in the entity's own list [entity.modifiers] whose target is
    the slot, folded in list order; the modifiers of the entity's type take
    no part in the read.  The write stores the raw value and the read
    leaves the state as the write left it. *)
Theorem read_after_write desc self st th (z : Z) :
  get_thing (entity self) st = Ok th ->
  exists st1,
    ComponentAttribute_set desc self (VInt z) st = Ok st1 /\
    stored st1 (entity self) (zope_attribute desc) = Some (VInt z) /\
    ComponentAttribute_get desc self st1 =
      Ok (VInt (z + sum_adds (zope_attribute desc) (Thing.modifiers th)), st1) /\
    apply_modifiers (Thing.modifiers th) (zope_attribute desc) (VInt z) =
      Ok (VInt (z + sum_adds (zope_attribute desc) (Thing.modifiers th))).
Proof.
  intros Hth. eexists. split; [by apply set_Ok|].
  split; [|split].
  - unfold stored, put_thing. simpl. rewrite lookup_insert_eq. simpl.
    by rewrite lookup_insert_eq.
  - rewrite (get_stored desc self _
               (Thing.set_data th (<[zope_attribute desc := VInt z]>
                                     (Thing.component_data th))) (VInt z)).
    + simpl. by rewrite apply_modifiers_int.
    + apply get_thing_put.
    + simpl. by rewrite lookup_insert_eq.
  - apply apply_modifiers_int.
Qed.

(** C7.  The first read of a slot that was never written calls the slot's
    default-provider, stores its raw result in the entity's attribute data
    and returns it with the entity's modifiers applied.  A later read with
    no write in between finds the stored value: it returns the same base
    value under the same modifiers, leaves the state alone, and its result
    does not depend on the default-provider (which is therefore not called
    again).  On a fresh entity, and whenever the default is an integer, the
    read does not fail. *)
Theorem lazy_default desc self st th :
  get_thing (entity self) st = Ok th ->
  Thing.component_data th !! zope_attribute desc = None ->
  let d := initializer desc self in
  let attr := zope_attribute desc in
  exists st1,
    ComponentAttribute_get desc self st =
      (let* v := apply_modifiers (Thing.modifiers th) attr d in Ok (v, st1)) /\
    stored st1 (entity self) attr = Some d /\
    (forall desc', zope_attribute desc' = attr ->
       ComponentAttribute_get desc' self st1 =
         (let* v := apply_modifiers (Thing.modifiers th) attr d in Ok (v, st1))) /\
    (Thing.modifiers th = [] ->
       ComponentAttribute_get desc self st = Ok (d, st1)) /\
    (forall z, d = VInt z ->
       ComponentAttribute_get desc self st =
         Ok (VInt (z + sum_adds attr (Thing.modifiers th)), st1)).
Proof.
  intros Hth Hnone d attr.
  pose proof (get_fresh desc self st th Hth Hnone) as Hget.
  fold d attr in Hget.
  eexists. split; [exact Hget|]. split; [|split; [|split]].
  - unfold stored, put_thing. simpl. rewrite lookup_insert_eq. simpl.
    by rewrite lookup_insert_eq.
  - intros desc' Hattr.
    rewrite (get_stored desc' self _
               (Thing.set_data th (<[attr := d]> (Thing.component_data th))) d).
    + rewrite Hattr. simpl. reflexivity.
    + apply get_thing_put.
    + rewrite Hattr. simpl. by rewrite lookup_insert_eq.
  - intros Hmods. rewrite Hget, Hmods. reflexivity.
  - intros z Hz. rewrite Hget, Hz, apply_modifiers_int. reflexivity.
Qed.
End SlotProperties.

(** C1, the claim as stated, fails: entity 1 has no modifier of its own and
    its type carries strength +3; after writing 5 to the strength slot the
    read returns 5, where the specification's read (type-level modifiers
    first, then the entity's) is 8. *)
Lemma read_ignores_type_modifiers :
  ThingType_init implementedBy [Combatant] creature "veteran" ("v", "default")
    [{| Modifier.stat := strength_attr; Modifier.add := 3 |}] = Ok veteran_type /\
  (let* st := ComponentAttribute_set Combatant_strength combatant_1 (VInt 5)
                veteran_state in
   let* '(v, _) := ComponentAttribute_get Combatant_strength combatant_1 st in
   Ok v) = Ok (VInt 5) /\
  spec_read_after_write (Thing.init veteran_type) strength_attr 5 = VInt 8 /\
  VInt 5 <> spec_read_after_write (Thing.init veteran_type) strength_attr 5.
Proof.
  split; [reflexivity|]. split; [vm_compute; reflexivity|].
  split; [reflexivity|]. vm_compute. discriminate.
Qed.

Lemma read_after_write_witness :
  exists st1,
    ComponentAttribute_set Combatant_strength combatant_1 (VInt 5) veteran_state
      = Ok st1 /\
    stored st1 1%nat strength_attr = Some (VInt 5) /\
    ComponentAttribute_get Combatant_strength combatant_1 st1 = Ok (VInt (5 + 0), st1) /\
    apply_modifiers [] strength_attr (VInt 5) = Ok (VInt (5 + 0)).
Proof.
  exact (read_after_write Combatant_strength combatant_1 veteran_state
           (Thing.init veteran_type) 5 eq_refl).
Defined.

Lemma lazy_default_witness :
  exists st1,
    ComponentAttribute_get Combatant_health combatant_1 veteran_state =
      (let* v := apply_modifiers [] health_attr (VInt 10) in Ok (v, st1)) /\
    stored st1 1%nat health_attr = Some (VInt 10) /\
    (forall desc', zope_attribute desc' = health_attr ->
       ComponentAttribute_get desc' combatant_1 st1 =
         (let* v := apply_modifiers [] health_attr (VInt 10) in Ok (v, st1))) /\
    (@nil Modifier.t = [] ->
       ComponentAttribute_get Combatant_health combatant_1 veteran_state
         = Ok (VInt 10, st1)) /\
    (forall z, VInt 10 = VInt z ->
       ComponentAttribute_get Combatant_health combatant_1 veteran_state
         = Ok (VInt (z + 0), st1)).
Proof.
  exact (lazy_default Combatant_health combatant_1 veteran_state
           (Thing.init veteran_type) eq_refl eq_refl).
Defined.

(** ** The damage handler reads a modified value and writes it back *)

(** C9.  [self.health -= event.amount] reads the health slot with the
    entity's modifiers applied and stores the difference raw: with stored
    health [h], modifiers adding [d] in total to the health slot and a damage
    of [a], the new stored health is [h + d - a], not [h - a]; the next read
    adds [d] once more, and it is that read the death test compares with
    zero. *)
Theorem damage_bakes_modifiers (self : FComponent) (ev : FEvent) (st : FState)
    (th : Thing.t ComponentClass) (h a : Z) :
  get_thing (entity self) st = Ok th ->
  Thing.component_data th !! health_attr = Some (VInt h) ->
  Event.amount ev = Some a ->
  let d := sum_adds health_attr (Thing.modifiers th) in
  let st1 :=
    put_thing (entity self)
      (Thing.set_data th (<[health_attr := VInt (h + d - a)]>
                            (Thing.component_data th))) st in
  let st2 :=
    if bool_decide (h + d - a + d <= 0)
    then call_world (queue_immediate_event Die [AThing (entity self)]) st1
    else st1 in
  Combatant_handle_damage self ev st = Ok (ev, st2) /\
  stored st2 (entity self) health_attr = Some (VInt (h + d - a)) /\
  ComponentAttribute_get Combatant_health self st2 = Ok (VInt (h + d - a + d), st2) /\
  (forall d0, Thing.modifiers th =
                [{| Modifier.stat := health_attr; Modifier.add := d0 |}] ->
     d = d0).
Proof.
  intros Hth Hh Ha d st1 st2.
  set (th1 := Thing.set_data th (<[health_attr := VInt (h + d - a)]>
                                   (Thing.component_data th))).
  assert (Hth1 : get_thing (entity self) st1 = Ok th1) by apply get_thing_put.
  assert (Hread1 : ComponentAttribute_get Combatant_health self st1
                   = Ok (VInt (h + d - a + d), st1)).
  { rewrite (get_stored Combatant_health self st1 th1 (VInt (h + d - a)) Hth1).
    - simpl. by rewrite apply_modifiers_int.
    - simpl. by rewrite lookup_insert_eq. }
  split; [|split; [|split]].
  - unfold Combatant_handle_damage.
    rewrite (get_stored Combatant_health self st th (VInt h) Hth Hh).
    simpl. rewrite apply_modifiers_int. simpl. rewrite Ha. simpl.
    rewrite (set_Ok Combatant_health self st th _ Hth). simpl.
    fold health_attr d th1. change (put_thing (entity self) th1 st) with st1.
    rewrite Hread1. simpl.
    subst st2. by destruct (bool_decide (h + d - a + d <= 0)).
  - subst st2. destruct (bool_decide (h + d - a + d <= 0));
      unfold stored; simpl; rewrite lookup_insert_eq; simpl;
      by rewrite lookup_insert_eq.
  - subst st2. destruct (bool_decide (h + d - a + d <= 0)); [|exact Hread1].
    rewrite (get_stored Combatant_health self _ th1 (VInt (h + d - a))).
    + simpl. by rewrite apply_modifiers_int.
    + unfold get_thing, call_world. simpl. by rewrite lookup_insert_eq.
    + simpl. by rewrite lookup_insert_eq.
  - intros d0 Hmods. subst d. rewrite Hmods. simpl.
    try rewrite bool_decide_eq_true_2 by done. lia.
Qed.

(** ** Building a [ThingType] *)

Lemma elem_of_flat_map {A B} (f : A -> list B) (l : list A) (y : B) :
  y ∈ flat_map f l <-> exists x, x ∈ l /\ y ∈ f x.
Proof.
  induction l as [|a l IH]; simpl.
  - split; [by intros H%elem_of_nil|]. by intros (x & H%elem_of_nil & _).
  - rewrite elem_of_app, IH. split.
    + intros [H|(x & Hx & Hy)].
      * exists a. split; [by left|done].
      * exists x. split; [by right|done].
    + intros (x & [->|Hx]%elem_of_cons & Hy); [by left|].
      right. by exists x.
Qed.

Section ThingTypeInitFacts.
Context {Cls : Type}.
Variable implementedBy : Cls -> list Iface.

Lemma elem_of_capabilities c i :
  i ∈ capabilities implementedBy c <-> i ≠ IComponent /\ i ∈ implementedBy c.
Proof. unfold capabilities. by rewrite list_elem_of_filter. Qed.

Lemma entries_keys c : (entries implementedBy c).*1 = capabilities implementedBy c.
Proof.
  unfold entries. induction (capabilities implementedBy c) as [|i l IH];
    csimpl; [done|].
  by f_equal.
Qed.

Lemma flat_entries_keys cs : (flat_map (entries implementedBy) cs).*1 = flat_map (capabilities implementedBy) cs.
Proof.
  induction cs as [|c cs IH]; simpl; [done|].
  by rewrite fmap_app, entries_keys, IH.
Qed.

(** The inner loop, for any list of interfaces. *)
Lemma register_ifaces_Ok (c : Cls) ifaces comps r :
  register_ifaces c ifaces comps = Ok r ->
  let caps := filter (fun i => i ≠ IComponent) ifaces in
  r = comps ++ map (fun i => (i, c)) caps /\
  NoDup caps /\ (forall i, i ∈ caps -> i ∉ comps.*1).
Proof.
  revert comps. induction ifaces as [|i ifaces IH]; intros comps; simpl.
  - intros [= <-]. rewrite app_nil_r. split; [done|]. split; [constructor|].
    intros i Hi. by apply elem_of_nil in Hi.
  - destruct (decide (i = IComponent)) as [->|Hne].
    + rewrite bool_decide_eq_true_2 by done. intros H.
      rewrite filter_cons_False by tauto. by apply IH.
    + rewrite bool_decide_eq_false_2 by done.
      destruct (decide (i ∈ comps.*1)) as [Hin|Hnin].
      { rewrite bool_decide_eq_true_2 by done. discriminate. }
      rewrite bool_decide_eq_false_2 by done. intros H.
      apply IH in H as (-> & Hnd & Hdisj).
      rewrite filter_cons_True by done. simpl.
      split; [by rewrite <- app_assoc|]. split.
      * constructor; [|done]. intros Hi. apply (Hdisj i Hi).
        rewrite fmap_app. apply elem_of_app. right. simpl. by left.
      * intros j [->|Hj]%elem_of_cons; [done|].
        intros Hjc. apply (Hdisj j Hj). rewrite fmap_app.
        apply elem_of_app. by left.
Qed.

Lemma register_ifaces_complete (c : Cls) ifaces comps :
  let caps := filter (fun i => i ≠ IComponent) ifaces in
  NoDup caps -> (forall i, i ∈ caps -> i ∉ comps.*1) ->
  register_ifaces c ifaces comps = Ok (comps ++ map (fun i => (i, c)) caps).
Proof.
  revert comps. induction ifaces as [|i ifaces IH]; intros comps; simpl.
  - intros _ _. by rewrite app_nil_r.
  - destruct (decide (i = IComponent)) as [->|Hne].
    + rewrite bool_decide_eq_true_2 by done.
      rewrite filter_cons_False by tauto. apply IH.
    + rewrite bool_decide_eq_false_2 by done.
      rewrite filter_cons_True by done. simpl.
      intros [Hi Hnd]%NoDup_cons Hdisj.
      rewrite bool_decide_eq_false_2 by (apply Hdisj; by left).
      rewrite IH; [by rewrite <- app_assoc|done|].
      intros j Hj. rewrite fmap_app. intros [Hjc|Hjc]%elem_of_app.
      * apply (Hdisj j); [by right|done].
      * simpl in Hjc. apply list_elem_of_singleton in Hjc. by subst.
Qed.

Lemma register_ifaces_Raise (c : Cls) ifaces comps e :
  register_ifaces c ifaces comps = Raise e -> e = TypeError.
Proof.
  revert comps. induction ifaces as [|i ifaces IH]; intros comps; simpl.
  - discriminate.
  - destruct (bool_decide (i = IComponent)); [apply IH|].
    destruct (bool_decide (i ∈ comps.*1)); [by intros [= <-]|apply IH].
Qed.

Lemma register_component_Ok (c : Cls) comps r :
  register_ifaces c (implementedBy c) comps = Ok r ->
  r = comps ++ entries implementedBy c /\
  NoDup (capabilities implementedBy c) /\
  (forall i, i ∈ capabilities implementedBy c -> i ∉ comps.*1).
Proof. apply register_ifaces_Ok. Qed.

Lemma register_component_complete (c : Cls) comps :
  NoDup (capabilities implementedBy c) ->
  (forall i, i ∈ capabilities implementedBy c -> i ∉ comps.*1) ->
  register_ifaces c (implementedBy c) comps = Ok (comps ++ entries implementedBy c).
Proof. apply register_ifaces_complete. Qed.

(** The outer loop. *)
Lemma register_components_Ok cs comps r :
  register_components implementedBy cs comps = Ok r ->
  r = comps ++ flat_map (entries implementedBy) cs /\
  NoDup (flat_map (capabilities implementedBy) cs) /\
  (forall i, i ∈ flat_map (capabilities implementedBy) cs -> i ∉ comps.*1).
Proof.
  revert comps. induction cs as [|c cs IH]; intros comps; simpl.
  - intros [= <-]. rewrite app_nil_r. split; [done|]. split; [constructor|].
    intros i Hi. by apply elem_of_nil in Hi.
  - destruct (register_ifaces c (implementedBy c) comps) as [r1|e] eqn:H1;
      simpl; [|discriminate].
    apply register_component_Ok in H1 as (-> & Hnd1 & Hdisj1).
    intros H. apply IH in H as (-> & Hnd & Hdisj).
    split; [by rewrite <- app_assoc|]. split.
    + apply NoDup_app. split; [done|]. split; [|done].
      intros i Hi Hi'. apply (Hdisj i Hi'). rewrite fmap_app.
      apply elem_of_app. right. by rewrite entries_keys.
    + intros i [Hi|Hi]%elem_of_app; [by apply Hdisj1|].
      intros Hic. apply (Hdisj i Hi). rewrite fmap_app. apply elem_of_app.
      by left.
Qed.

Lemma register_components_complete cs comps :
  NoDup (flat_map (capabilities implementedBy) cs) ->
  (forall i, i ∈ flat_map (capabilities implementedBy) cs -> i ∉ comps.*1) ->
  register_components implementedBy cs comps = Ok (comps ++ flat_map (entries implementedBy) cs).
Proof.
  revert comps. induction cs as [|c cs IH]; intros comps; simpl.
  - intros _ _. by rewrite app_nil_r.
  - intros (Hnd1 & Hdisj1 & Hnd)%NoDup_app Hdisj.
    rewrite register_component_complete; [|done|].
    2:{ intros i Hi. apply Hdisj. apply elem_of_app. by left. }
    simpl. rewrite IH; [by rewrite <- app_assoc|done|].
    intros i Hi. rewrite fmap_app, entries_keys.
    intros [Hic|Hic]%elem_of_app.
    + apply (Hdisj i); [|done]. apply elem_of_app. by right.
    + by apply (Hdisj1 i).
Qed.

Lemma register_components_Raise cs comps e :
  register_components implementedBy cs comps = Raise e -> e = TypeError.
Proof.
  revert comps. induction cs as [|c cs IH]; intros comps; simpl; [discriminate|].
  destruct (register_ifaces c (implementedBy c) comps) as [r1|e1] eqn:H1; simpl.
  - apply IH.
  - intros [= <-]. by apply register_ifaces_Raise in H1.
Qed.
End ThingTypeInitFacts.

Section DuplicateCapabilities.
Context {Cls : Type}.
Variable implementedBy : Cls -> list Iface.
Hypothesis implementedBy_NoDup : forall c, NoDup (implementedBy c).

Lemma duplicate_not_NoDup cs :
  duplicate_capability implementedBy cs ->
  ~ NoDup (flat_map (capabilities implementedBy) cs).
Proof.
  intros (l1 & l2 & l3 & c1 & c2 & i & -> & Hne & H1 & H2) Hnd.
  rewrite flat_map_app in Hnd. apply NoDup_app in Hnd as (_ & _ & Hnd).
  simpl in Hnd. apply NoDup_app in Hnd as (_ & Hdisj & _).
  apply (Hdisj i).
  - by apply elem_of_capabilities.
  - rewrite flat_map_app. apply elem_of_app. right. simpl.
    apply elem_of_app. left. by apply elem_of_capabilities.
Qed.

Lemma NoDup_or_duplicate cs :
  NoDup (flat_map (capabilities implementedBy) cs) \/
  duplicate_capability implementedBy cs.
Proof.
  induction cs as [|c cs [Hnd|Hdup]].
  - left. constructor.
  - destruct (decide (Exists (fun i => i ∈ flat_map (capabilities implementedBy) cs)
                             (capabilities implementedBy c))) as [Hex|Hno].
    + right. apply Exists_exists in Hex as (i & Hi & Hi').
      apply elem_of_flat_map in Hi' as (c2 & Hc2 & Hi2).
      apply list_elem_of_split in Hc2 as (l2 & l3 & ->).
      apply elem_of_capabilities in Hi as [Hne Hi].
      apply elem_of_capabilities in Hi2 as [_ Hi2].
      by exists [], l2, l3, c, c2, i.
    + left. simpl. apply NoDup_app. split; [|split; [|done]].
      * apply NoDup_filter, implementedBy_NoDup.
      * intros i Hi Hi'. apply Hno, Exists_exists. exists i.
        by split.
  - right. destruct Hdup as (l1 & l2 & l3 & c1 & c2 & i & -> & H).
    by exists (c :: l1), l2, l3, c1, c2, i.
Qed.
End DuplicateCapabilities.

(** C6.  With [zi.implementedBy] listing each interface of a component once,
    [ThingType.__init__] raises (a [TypeError], the duplicate-capability
    error) exactly when two of the supplied components implement one
    capability other than the marker [IComponent]; otherwise it succeeds, the
    keys of the component dict are the implemented capabilities, each once,
    and every key maps to a supplied component that implements it. *)
Theorem ThingType_init_duplicates {Cls : Type} (implementedBy : Cls -> list Iface)
    (cs : list Cls) (layer : Layer) (name : string)
    (tmp_rendering : string * string) (modifiers : list Modifier.t) :
  (forall c, NoDup (implementedBy c)) ->
  let built := ThingType_init implementedBy cs layer name tmp_rendering modifiers in
  (built = Raise TypeError <-> duplicate_capability implementedBy cs) /\
  (forall e, built = Raise e -> e = TypeError) /\
  (~ duplicate_capability implementedBy cs ->
   exists ty,
     built = Ok ty /\
     NoDup (ThingType.components ty).*1 /\
     (ThingType.components ty).*1 = flat_map (capabilities implementedBy) cs /\
     (forall i c, (i, c) ∈ ThingType.components ty <->
                  c ∈ cs /\ i ≠ IComponent /\ i ∈ implementedBy c)).
Proof.
  intros Hnodup built. subst built. unfold ThingType_init.
  destruct (register_components implementedBy cs []) as [comps|e] eqn:Hreg; simpl.
  - apply register_components_Ok in Hreg as (Hcomps & Hnd & _).
    simpl in Hcomps. subst comps.
    split; [|split].
    + split; [discriminate|]. intros Hdup.
      by apply duplicate_not_NoDup in Hdup.
    + discriminate.
    + intros _. eexists. split; [reflexivity|]. simpl.
      rewrite flat_entries_keys. split; [done|]. split; [done|].
      intros i c. rewrite elem_of_flat_map. split.
      * intros (c' & Hc' & Hic). unfold entries in Hic.
        apply list_elem_of_fmap in Hic as (i' & [= -> ->] & Hi').
        by apply elem_of_capabilities in Hi'.
      * intros (Hc & Hne & Hi). exists c. split; [done|].
        unfold entries. apply list_elem_of_fmap. exists i. split; [done|].
        by apply elem_of_capabilities.
  - pose proof (register_components_Raise _ _ _ _ Hreg) as ->.
    assert (Hdup : duplicate_capability implementedBy cs).
    { destruct (NoDup_or_duplicate implementedBy Hnodup cs) as [Hnd|Hdup]; [|done].
      rewrite register_components_complete in Hreg; [discriminate|done|].
      intros i _ Hi. by apply elem_of_nil in Hi. }
    split; [|split].
    + done.
    + by intros e [= <-].
    + done.
Qed.

Lemma implementedBy_NoDup (c : ComponentClass) : NoDup (implementedBy c).
Proof. destruct c; by apply (bool_decide_unpack _). Qed.

Lemma ThingType_init_duplicates_witness :
  (forall c, NoDup (implementedBy c)) /\
  let built := ThingType_init implementedBy [Solid; Combatant; Empty]
                 creature "ghost" ("g", "default") [] in
  (built = Raise TypeError <->
   duplicate_capability implementedBy [Solid; Combatant; Empty]) /\
  (forall e, built = Raise e -> e = TypeError) /\
  (~ duplicate_capability implementedBy [Solid; Combatant; Empty] ->
   exists ty,
     built = Ok ty /\
     NoDup (ThingType.components ty).*1 /\
     (ThingType.components ty).*1 =
       flat_map (capabilities implementedBy) [Solid; Combatant; Empty] /\
     (forall i c, (i, c) ∈ ThingType.components ty <->
                  c ∈ [Solid; Combatant; Empty] /\ i ≠ IComponent /\
                  i ∈ implementedBy c)).
Proof.
  split; [exact implementedBy_NoDup|].
  exact (ThingType_init_duplicates implementedBy [Solid; Combatant; Empty]
           creature "ghost" ("g", "default") [] implementedBy_NoDup).
Defined.

(** ** Handler tables *)

Section RegistrationFacts.
Context {EvC F : Type} `{EqDecision EvC}.
Implicit Types (t : table EvC F) (h : Handler EvC F) (c : EvC).
Implicit Types (attrs items : namespace EvC F).

Lemma table_get_append t k (f : F) c :
  table_get (table_append t k f) c =
  table_get t c ++ (if bool_decide (k = c) then [f] else []).
Proof.
  induction t as [|[k0 fs] t IH]; simpl.
  - by destruct (bool_decide (k = c)).
  - destruct (decide (k0 = k)) as [->|Hk].
    + rewrite bool_decide_eq_true_2 by done. simpl.
      destruct (bool_decide (k = c)); [done|by rewrite app_nil_r].
    + rewrite bool_decide_eq_false_2 by done. simpl.
      destruct (decide (k0 = c)) as [->|Hc].
      * rewrite bool_decide_eq_true_2 by done.
        rewrite (bool_decide_eq_false_2 (k = c)) by congruence.
        by rewrite app_nil_r.
      * rewrite bool_decide_eq_false_2 by done. apply IH.
Qed.

Lemma table_get_register t h c :
  table_get (register_handler t h) c =
  table_get t c ++
  flat_map (fun c' => if bool_decide (c' = c) then [func h] else [])
           (event_classes h).
Proof.
  unfold register_handler. revert t.
  induction (event_classes h) as [|k ks IH]; intros t; simpl.
  - by rewrite app_nil_r.
  - rewrite IH, table_get_append, <- app_assoc. done.
Qed.

Lemma collect_handlers_table items t attrs c :
  table_get (collect_handlers items t attrs).1 c =
  table_get t c ++ declared_for items c.
Proof.
  revert t attrs. induction items as [|[key v] items IH]; intros t attrs; simpl.
  - by rewrite app_nil_r.
  - destruct v as [h| |]; simpl.
    + rewrite IH, table_get_register, <- app_assoc. done.
    + apply IH.
    + apply IH.
Qed.

Lemma dict_get_set attrs key (v : class_attr EvC F) :
  dict_get (dict_set attrs key v) key = Some v.
Proof.
  induction attrs as [|[k x] attrs IH]; simpl.
  - by rewrite bool_decide_eq_true_2.
  - destruct (decide (k = key)) as [->|Hk].
    + rewrite bool_decide_eq_true_2 by done. simpl.
      by rewrite bool_decide_eq_true_2.
    + rewrite bool_decide_eq_false_2 by done. simpl.
      by rewrite bool_decide_eq_false_2.
Qed.

(** The table an instance sees is the one built from the class's own body. *)
Lemma class_event_handlers_new name bases attrs :
  class_event_handlers (ComponentMeta_new name bases attrs) =
  (collect_handlers attrs [] attrs).1.
Proof.
  unfold class_event_handlers, ComponentMeta_new.
  destruct (collect_handlers attrs [] attrs) as [eh attrs'] eqn:Hc. simpl.
  by rewrite dict_get_set.
Qed.

Lemma table_get_new name bases attrs c :
  table_get (class_event_handlers (ComponentMeta_new name bases attrs)) c =
  declared_for attrs c.
Proof. by rewrite class_event_handlers_new, collect_handlers_table. Qed.

(** C8.  The handler table of a component class holds, for every event
    class, the functions of the handlers declared in the class's own body,
    in declaration order; the bases play no part, so a class with an empty
    body has an empty table whatever its base classes declare. *)
Theorem own_handlers_only (name : string) (bases : list (PyClass EvC F))
    (attrs : namespace EvC F) :
  (forall c,
     table_get (class_event_handlers (ComponentMeta_new name bases attrs)) c =
     declared_for attrs c) /\
  (forall name' bases',
     class_event_handlers (ComponentMeta_new name' bases' attrs) =
     class_event_handlers (ComponentMeta_new name bases attrs)) /\
  (forall c,
     table_get (class_event_handlers (ComponentMeta_new name bases [])) c = []).
Proof.
  split; [|split].
  - intros c. apply table_get_new.
  - intros name' bases'. by rewrite !class_event_handlers_new.
  - intros c. by rewrite table_get_new.
Qed.
End RegistrationFacts.

(** ** Dispatch *)

Lemma flat_map_nil {A B} (f : A -> list B) (l : list A) :
  (forall x, x ∈ l -> f x = []) -> flat_map f l = [].
Proof.
  induction l as [|a l IH]; intros H; simpl; [done|].
  rewrite (H a) by by left. apply IH. intros x Hx. apply H. by right.
Qed.

Section DispatchFacts.
Context {Cls EvC : Type} `{EqDecision EvC}.
Variable eh : Cls -> table EvC (handler_fn Cls EvC).
Variable mro : EvC -> list EvC.
Implicit Types (self thing : Component Cls) (ev : Event.t EvC).
Implicit Types (st : State Cls EvC) (hs : list (handler_fn Cls EvC)).
Implicit Types (items : list (Iface * Cls)).

Lemma run_handlers_app hs1 hs2 thing ev st :
  run_handlers (hs1 ++ hs2) thing ev st =
  let* '(ev', st') := run_handlers hs1 thing ev st in
  run_handlers hs2 thing ev' st'.
Proof.
  revert ev st. induction hs1 as [|h hs1 IH]; intros ev st; simpl; [done|].
  destruct (h thing ev st) as [[ev' st']|e]; simpl; [apply IH|done].
Qed.

Lemma handle_event_classes_flat self classes thing ev st :
  handle_event_classes eh self classes thing ev st =
  run_handlers (flat_map (table_get (eh (component_class self))) classes)
               thing ev st.
Proof.
  revert ev st. induction classes as [|c classes IH]; intros ev st; simpl; [done|].
  rewrite run_handlers_app.
  destruct (run_handlers _ thing ev st) as [[ev' st']|e]; simpl; [apply IH|done].
Qed.

Lemma Component_handle_event_flat self thing ev st :
  Component_handle_event eh mro self thing ev st =
  run_handlers (flat_map (table_get (eh (component_class self)))
                         (mro (Event.event_class ev)))
               thing ev st.
Proof. apply handle_event_classes_flat. Qed.

Lemma handle_event_items_app e items1 items2 ev st :
  handle_event_items eh mro e (items1 ++ items2) ev st =
  let* '(ev', st') := handle_event_items eh mro e items1 ev st in
  handle_event_items eh mro e items2 ev' st'.
Proof.
  revert ev st. induction items1 as [|[i c] items1 IH]; intros ev st; simpl; [done|].
  destruct (Component_handle_event _ _ _ _ ev st) as [[ev' st']|err]; simpl;
    [apply IH|done].
Qed.

(** A component that holds no handler for the event's classes is skipped. *)
Lemma component_skip self thing ev st :
  (forall cls, cls ∈ mro (Event.event_class ev) ->
               table_get (eh (component_class self)) cls = []) ->
  Component_handle_event eh mro self thing ev st = Ok (ev, st).
Proof.
  intros H. rewrite Component_handle_event_flat, flat_map_nil; done.
Qed.

Lemma items_skip e items ev st :
  (forall p cls, p ∈ items -> cls ∈ mro (Event.event_class ev) ->
                 table_get (eh p.2) cls = []) ->
  handle_event_items eh mro e items ev st = Ok (ev, st).
Proof.
  induction items as [|[i c] items IH]; intros H; simpl; [done|].
  rewrite component_skip.
  - simpl. apply IH. intros p cls Hp. apply H. by right.
  - intros cls. apply (H (i, c)). by left.
Qed.

(** C10.  When no component of the entity's type holds a handler for any
    class of the event's hierarchy, dispatch calls nothing, does not raise
    and returns the event and the whole state (attribute data and modifier
    lists included) as they were; a single component without a matching
    handler is passed over in the same way. *)
Theorem dispatch_without_handlers (e : thing_id) ev st (th : Thing.t Cls) :
  get_thing e st = Ok th ->
  (forall i c cls,
     (i, c) ∈ ThingType.components (Thing.type th) ->
     cls ∈ mro (Event.event_class ev) ->
     table_get (eh c) cls = []) ->
  Thing_handle_event eh mro e ev st = Ok (ev, st) /\
  bound_handlers eh mro e (ThingType.components (Thing.type th))
                 (Event.event_class ev) = [] /\
  (forall self thing ev' st',
     (forall cls, cls ∈ mro (Event.event_class ev') ->
                  table_get (eh (component_class self)) cls = []) ->
     Component_handle_event eh mro self thing ev' st' = Ok (ev', st')).
Proof.
  intros Hth Hnone. split; [|split].
  - unfold Thing_handle_event. rewrite Hth. simpl. apply items_skip.
    intros [i c] cls Hp Hcls. by apply (Hnone i c).
  - unfold bound_handlers. apply flat_map_nil. intros [i c] Hp. simpl.
    rewrite flat_map_nil; [done|]. intros cls Hcls. by apply (Hnone i c).
  - intros self thing ev' st'. apply component_skip.
Qed.

Lemma run_bound_app (hs1 hs2 : list (Component Cls * handler_fn Cls EvC)) ev st :
  run_bound (hs1 ++ hs2) ev st =
  let* '(ev', st') := run_bound hs1 ev st in
  run_bound hs2 ev' st'.
Proof.
  revert ev st. induction hs1 as [|[a h] hs1 IH]; intros ev st; simpl; [done|].
  destruct (h a ev st) as [[ev' st']|e]; simpl; [apply IH|done].
Qed.

Lemma run_bound_map hs thing ev st :
  run_bound (map (fun h => (thing, h)) hs) ev st = run_handlers hs thing ev st.
Proof.
  revert ev st. induction hs as [|h hs IH]; intros ev st; simpl; [done|].
  destruct (h thing ev st) as [[ev' st']|e]; simpl; [apply IH|done].
Qed.

Lemma run_handlers_class hs thing ev st ev' st' :
  (forall h self ev0 st0 ev1 st1,
     h ∈ hs -> h self ev0 st0 = Ok (ev1, st1) ->
     Event.event_class ev1 = Event.event_class ev0) ->
  run_handlers hs thing ev st = Ok (ev', st') ->
  Event.event_class ev' = Event.event_class ev.
Proof.
  revert ev st. induction hs as [|h hs IH]; intros ev st Hkeep; simpl.
  - by intros [= <- <-].
  - destruct (h thing ev st) as [[ev1 st1]|e] eqn:Hh; simpl; [|discriminate].
    intros Hrun. apply IH in Hrun.
    + rewrite Hrun. apply (Hkeep h thing ev st ev1 st1); [by left|done].
    + intros h' self ev0 st0 ev2 st2 Hh'. apply Hkeep. by right.
Qed.

(** When no handler changes the class of the event, the loops of
    [Thing.handle_event] run the bound handlers one after the other. *)
Lemma handle_event_items_flat e items ev st :
  (forall i c cls h self ev0 st0 ev1 st1,
     (i, c) ∈ items -> h ∈ table_get (eh c) cls ->
     h self ev0 st0 = Ok (ev1, st1) ->
     Event.event_class ev1 = Event.event_class ev0) ->
  handle_event_items eh mro e items ev st =
  run_bound (bound_handlers eh mro e items (Event.event_class ev)) ev st.
Proof.
  revert ev st. induction items as [|[i c] items IH]; intros ev st Hkeep;
    simpl; [done|].
  rewrite Component_handle_event_flat, run_bound_app, run_bound_map. simpl.
  destruct (run_handlers _ _ ev st) as [[ev' st']|err] eqn:Hrun; simpl; [|done].
  assert (Hcls : Event.event_class ev' = Event.event_class ev).
  { apply run_handlers_class in Hrun; [done|].
    intros h self ev0 st0 ev1 st1 (cls & _ & Hh)%elem_of_flat_map.
    apply (Hkeep i c cls); [by left|done]. }
  rewrite IH, Hcls; [done|].
  intros i' c' cls h self ev0 st0 ev1 st1 Hin. apply (Hkeep i' c'). by right.
Qed.

(** C4.  [Component.handle_event] calls, for the classes of the event's
    MRO in MRO order (Python lists the concrete class first and the root
    last), every function the component's table holds for the class, in
    table order; for a class built by the metaclass that is the order of
    declaration in the class body.  Hence a handler registered for an
    ancestor class is called, at its place in that sequence, when an event
    of a subclass is dispatched.  [Thing.handle_event] does this for each
    component of the entity's type in turn, in the order of the type's
    dict: dispatching to an entity of the store runs the loop over the
    components of its type; a handler that a component of the type holds
    for an ancestor of the event's class is called, after the components
    and handlers before it and before those after it; and, when no handler
    changes the class of the event, the whole dispatch is the sequence of
    all bound handlers, components in dict order, classes in MRO order,
    handlers in table order. *)
Theorem dispatch_order self thing ev st :
  let classes := mro (Event.event_class ev) in
  let table_of := table_get (eh (component_class self)) in
  Component_handle_event eh mro self thing ev st =
    run_handlers (flat_map table_of classes) thing ev st /\
  (forall name bases attrs,
     eh (component_class self) =
       class_event_handlers (ComponentMeta_new name bases attrs) ->
     Component_handle_event eh mro self thing ev st =
       run_handlers (flat_map (declared_for attrs) classes) thing ev st) /\
  (forall before ancestor after hs1 h hs2,
     classes = before ++ ancestor :: after ->
     table_of ancestor = hs1 ++ h :: hs2 ->
     Component_handle_event eh mro self thing ev st =
       let* '(ev1, st1) :=
         run_handlers (flat_map table_of before ++ hs1) thing ev st in
       let* '(ev2, st2) := h thing ev1 st1 in
       run_handlers (hs2 ++ flat_map table_of after) thing ev2 st2) /\
  (forall e i c rest,
     handle_event_items eh mro e ((i, c) :: rest) ev st =
       let adapted := {| component_class := c; iface := i; entity := e |} in
       let* '(ev', st') :=
         run_handlers (flat_map (table_get (eh c)) classes) adapted ev st in
       handle_event_items eh mro e rest ev' st') /\
  (forall e, handle_event_items eh mro e [] ev st = Ok (ev, st)) /\
  (forall e (th : Thing.t Cls),
     get_thing e st = Ok th ->
     Thing_handle_event eh mro e ev st =
       handle_event_items eh mro e (ThingType.components (Thing.type th)) ev st) /\
  (forall e (th : Thing.t Cls) items1 i c items2 ev1 st1
          before ancestor after hs1 h hs2,
     get_thing e st = Ok th ->
     ThingType.components (Thing.type th) = items1 ++ (i, c) :: items2 ->
     handle_event_items eh mro e items1 ev st = Ok (ev1, st1) ->
     mro (Event.event_class ev1) = before ++ ancestor :: after ->
     table_get (eh c) ancestor = hs1 ++ h :: hs2 ->
     Thing_handle_event eh mro e ev st =
       let adapted := {| component_class := c; iface := i; entity := e |} in
       let* '(ev2, st2) :=
         run_handlers (flat_map (table_get (eh c)) before ++ hs1) adapted ev1 st1 in
       let* '(ev3, st3) := h adapted ev2 st2 in
       let* '(ev4, st4) :=
         run_handlers (hs2 ++ flat_map (table_get (eh c)) after) adapted ev3 st3 in
       handle_event_items eh mro e items2 ev4 st4) /\
  (forall e (th : Thing.t Cls),
     get_thing e st = Ok th ->
     (forall i c cls h self' ev0 st0 ev1 st1,
        (i, c) ∈ ThingType.components (Thing.type th) ->
        h ∈ table_get (eh c) cls ->
        h self' ev0 st0 = Ok (ev1, st1) ->
        Event.event_class ev1 = Event.event_class ev0) ->
     Thing_handle_event eh mro e ev st =
       run_bound
         (flat_map
            (fun p =>
               let adapted :=
                 {| component_class := p.2; iface := p.1; entity := e |} in
               map (fun h => (adapted, h))
                   (flat_map (table_get (eh p.2)) classes))
            (ThingType.components (Thing.type th)))
         ev st).
Proof.
  intros classes table_of.
  split; [|split; [|split; [|split; [|split; [|split; [|split]]]]]].
  - apply Component_handle_event_flat.
  - intros name bases attrs Heh. rewrite Component_handle_event_flat.
    f_equal. fold classes. rewrite Heh.
    clear. induction classes as [|c cs IH]; simpl; [done|].
    by rewrite table_get_new, IH.
  - intros before ancestor after hs1 h hs2 Hcl Htab.
    rewrite Component_handle_event_flat. fold classes table_of.
    rewrite Hcl, flat_map_app. simpl. rewrite Htab.
    rewrite <- !app_assoc, app_assoc. rewrite run_handlers_app.
    destruct (run_handlers (flat_map table_of before ++ hs1) thing ev st)
      as [[ev1 st1]|err]; simpl; done.
  - intros e i c rest. simpl. by rewrite Component_handle_event_flat.
  - done.
  - intros e th Hth. unfold Thing_handle_event. by rewrite Hth.
  - intros e th items1 i c items2 ev1 st1 before ancestor after hs1 h hs2
           Hth Hcomps Hitems1 Hmro Htab.
    unfold Thing_handle_event. rewrite Hth. simpl.
    rewrite Hcomps, handle_event_items_app, Hitems1. simpl.
    rewrite Component_handle_event_flat. simpl.
    rewrite Hmro, flat_map_app. simpl. rewrite Htab.
    rewrite <- !app_assoc, app_assoc. rewrite run_handlers_app.
    destruct (run_handlers (flat_map (table_get (eh c)) before ++ hs1) _ ev1 st1)
      as [[ev2 st2]|err]; simpl; [|done].
    destruct (h _ ev2 st2) as [[ev3 st3]|err]; simpl; done.
  - intros e th Hth Hkeep. unfold Thing_handle_event. rewrite Hth. simpl.
    by rewrite handle_event_items_flat.
Qed.

(** The part of C3 that holds for every set of components: a handler that
    sets [cancelled] does not end the dispatch. *)
Lemma cancel_is_advisory e items1 i c items2 ev st ev1 st1 hs1 h hs2 ev2 st2 ev3 st3 :
  let adapted := {| component_class := c; iface := i; entity := e |} in
  handle_event_items eh mro e items1 ev st = Ok (ev1, st1) ->
  flat_map (table_get (eh c)) (mro (Event.event_class ev1)) = hs1 ++ h :: hs2 ->
  run_handlers hs1 adapted ev1 st1 = Ok (ev2, st2) ->
  h adapted ev2 st2 = Ok (ev3, st3) ->
  Event.cancelled ev3 = true ->
  handle_event_items eh mro e (items1 ++ (i, c) :: items2) ev st =
    let* '(ev4, st4) := run_handlers hs2 adapted ev3 st3 in
    handle_event_items eh mro e items2 ev4 st4.
Proof.
  intros adapted H1 Hhs Hrun Hh _.
  rewrite handle_event_items_app, H1. simpl.
  rewrite Component_handle_event_flat. simpl. rewrite Hhs.
  rewrite run_handlers_app. fold adapted. rewrite Hrun. simpl.
  rewrite Hh. simpl. done.
Qed.
End DispatchFacts.

(** ** The components of the module *)

Lemma capabilities_of (c : ComponentClass) :
  capabilities implementedBy c = [capability_of c].
Proof. by destruct c. Qed.

Lemma entries_of (c : ComponentClass) :
  entries implementedBy c = [(capability_of c, c)].
Proof. by destruct c. Qed.

Lemma init_components cs layer name r mods ty :
  ThingType_init implementedBy cs layer name r mods = Ok ty ->
  ThingType.components ty = flat_map (entries implementedBy) cs /\
  NoDup (ThingType.components ty).*1 /\
  ThingType.modifiers ty = mods.
Proof.
  unfold ThingType_init.
  destruct (register_components implementedBy cs []) as [comps|e] eqn:Hreg;
    simpl; [|discriminate].
  intros [= <-]. simpl.
  apply register_components_Ok in Hreg as (-> & Hnd & _). simpl.
  by rewrite flat_entries_keys.
Qed.

(** A supplied component sits in the dict once, and no other entry shares its
    capability. *)
Lemma init_components_split cs layer name r mods ty target :
  ThingType_init implementedBy cs layer name r mods = Ok ty ->
  target ∈ cs ->
  exists l1 l2,
    ThingType.components ty = l1 ++ (capability_of target, target) :: l2 /\
    (forall p, p ∈ l1 ++ l2 -> capability_of p.2 ≠ capability_of target).
Proof.
  intros (Hcomps & Hnd & _)%init_components Htarget.
  assert (Hin : (capability_of target, target) ∈ ThingType.components ty).
  { rewrite Hcomps. apply elem_of_flat_map. exists target. split; [done|].
    rewrite entries_of. by left. }
  assert (Hkeys : forall p, p ∈ ThingType.components ty -> p.1 = capability_of p.2).
  { intros p. rewrite Hcomps. intros (c & _ & Hp)%elem_of_flat_map.
    rewrite entries_of in Hp. apply list_elem_of_singleton in Hp. by subst. }
  apply list_elem_of_split in Hin as (l1 & l2 & Hsplit).
  exists l1, l2. split; [done|].
  rewrite Hsplit in Hnd, Hkeys.
  rewrite fmap_app, fmap_cons in Hnd. simpl in Hnd.
  apply NoDup_app in Hnd as (_ & Hl1 & [Hl2 _]%NoDup_cons).
  intros p Hp Heq.
  assert (Hp1 : p.1 = capability_of target).
  { rewrite <- Heq. apply Hkeys. apply elem_of_app.
    apply elem_of_app in Hp as [Hp|Hp]; [by left|right; by right]. }
  apply elem_of_app in Hp as [Hp|Hp].
  - apply (Hl1 (capability_of target)); [|by left].
    rewrite <- Hp1. apply list_elem_of_fmap. by exists p.
  - apply Hl2. rewrite <- Hp1. apply list_elem_of_fmap. by exists p.
Qed.

Lemma items_skip_of e (items : list (Iface * ComponentClass)) (ev : FEvent)
    (st : FState) :
  (forall p, p ∈ items -> handlers_of p.2 (Event.event_class ev) = []) ->
  handle_event_items event_handlers flax_mro e items ev st = Ok (ev, st).
Proof.
  induction items as [|[i c] items IH]; intros H; simpl; [done|].
  rewrite Component_handle_event_flat. simpl.
  assert (Hc : handlers_of c (Event.event_class ev) = []) by (apply (H (i, c)); by left).
  fold (handlers_of c (Event.event_class ev)). rewrite Hc.
  simpl. apply IH. intros p Hp. apply H. by right.
Qed.

(** Dispatch to an entity whose type was built from the module's components:
    when only the components of one capability hold handlers for the event
    class, the handlers of the supplied component of that capability are all
    that runs. *)
Lemma dispatch_single cs layer name r mods ty target e (ev ev' : FEvent)
    (st st' : FState) th :
  ThingType_init implementedBy cs layer name r mods = Ok ty ->
  target ∈ cs ->
  (forall c, capability_of c ≠ capability_of target ->
             handlers_of c (Event.event_class ev) = []) ->
  get_thing e st = Ok th -> Thing.type th = ty ->
  run_handlers (handlers_of target (Event.event_class ev))
    {| component_class := target; iface := capability_of target; entity := e |}
    ev st = Ok (ev', st') ->
  Event.event_class ev' = Event.event_class ev ->
  handle_event e ev st = Ok (ev', st').
Proof.
  intros Hinit Htarget Hothers Hth Hty Hrun Hcls.
  destruct (init_components_split _ _ _ _ _ _ _ Hinit Htarget)
    as (l1 & l2 & Hsplit & Hrest).
  unfold handle_event, Thing_handle_event. rewrite Hth. simpl.
  rewrite Hty, Hsplit, handle_event_items_app.
  rewrite items_skip_of.
  2:{ intros p Hp. apply Hothers, Hrest, elem_of_app. by left. }
  simpl. rewrite Component_handle_event_flat. simpl.
  fold (handlers_of target (Event.event_class ev)). rewrite Hrun. simpl.
  apply items_skip_of. intros p Hp. rewrite Hcls.
  apply Hothers, Hrest, elem_of_app. by right.
Qed.

Lemma only_combatants_handle (cls : EventClass) (c : ComponentClass) :
  cls = Damage \/ cls = Die ->
  capability_of c ≠ ICombatant -> handlers_of c cls = [].
Proof. intros [-> | ->] Hne; destruct c; first [reflexivity | by destruct Hne]. Qed.

Lemma only_physics_handle_walk (c : ComponentClass) :
  capability_of c ≠ IPhysics -> handlers_of c Walk = [].
Proof. intros Hne; destruct c; first [reflexivity | by destruct Hne]. Qed.

Lemma only_equipment_handles_equip (c : ComponentClass) :
  capability_of c ≠ IEquipment -> handlers_of c Equip = [].
Proof. intros Hne; destruct c; first [reflexivity | by destruct Hne]. Qed.

(** ** Combat *)

(** [Combatant.handle_damage] on an entity without modifiers, from the base
    health [b]: the stored value, or the default 10 of an unwritten slot. *)
Lemma handle_damage_plain (self : FComponent) (ev : FEvent) (st : FState)
    (th : Thing.t ComponentClass) (b a : Z) :
  get_thing (entity self) st = Ok th ->
  Thing.modifiers th = [] ->
  default (VInt 10) (Thing.component_data th !! health_attr) = VInt b ->
  Event.amount ev = Some a ->
  Combatant_handle_damage self ev st =
    Ok (ev,
        let st1 :=
          put_thing (entity self)
            (Thing.set_data th (<[health_attr := VInt (b - a)]>
                                  (Thing.component_data th))) st in
        if bool_decide (b - a <= 0)
        then call_world (queue_immediate_event Die [AThing (entity self)]) st1
        else st1).
Proof.
  intros Hth Hmods Hb Ha. unfold Combatant_handle_damage.
  set (th1 := Thing.set_data th (<[health_attr := VInt (b - a)]>
                                   (Thing.component_data th))).
  assert (Hread : ComponentAttribute_get Combatant_health self
                    (put_thing (entity self) th1 st)
                  = Ok (VInt (b - a), put_thing (entity self) th1 st)).
  { rewrite (get_stored Combatant_health self _ th1 (VInt (b - a))).
    - simpl. by rewrite Hmods.
    - apply get_thing_put.
    - simpl. by rewrite lookup_insert_eq. }
  destruct (Thing.component_data th !! health_attr) as [v|] eqn:Hdata;
    simpl in Hb.
  - subst v.
    rewrite (get_stored Combatant_health self st th (VInt b) Hth Hdata).
    rewrite Hmods. simpl. rewrite Ha. simpl.
    rewrite (set_Ok Combatant_health self st th _ Hth). simpl.
    fold health_attr th1. rewrite Hread. simpl.
    by destruct (bool_decide (b - a <= 0)).
  - injection Hb as Hb.
    rewrite (get_fresh Combatant_health self st th Hth Hdata).
    rewrite Hmods. simpl. rewrite Ha, Hb. simpl.
    rewrite (set_Ok Combatant_health self _ _ _ (get_thing_put _ _ _)). simpl.
    rewrite insert_insert_eq, put_thing_put, set_data_set_data.
    fold health_attr th1. rewrite Hread. simpl.
    by destruct (bool_decide (b - a <= 0)).
Qed.

(** Dispatching a damage event to an entity whose type holds [Combatant]. *)
Lemma dispatch_damage cs layer name r mods ty e (ev : FEvent) (st : FState)
    (th : Thing.t ComponentClass) (b a : Z) :
  ThingType_init implementedBy cs layer name r mods = Ok ty ->
  Combatant ∈ cs ->
  get_thing e st = Ok th -> Thing.type th = ty ->
  Thing.modifiers th = [] ->
  default (VInt 10) (Thing.component_data th !! health_attr) = VInt b ->
  Event.event_class ev = Damage -> Event.amount ev = Some a ->
  handle_event e ev st =
    Ok (ev,
        let st1 :=
          put_thing e
            (Thing.set_data th (<[health_attr := VInt (b - a)]>
                                  (Thing.component_data th))) st in
        if bool_decide (b - a <= 0)
        then call_world (queue_immediate_event Die [AThing e]) st1
        else st1).
Proof.
  intros Hinit Hin Hth Hty Hmods Hb Hcls Ha.
  eapply (dispatch_single _ _ _ _ _ _ Combatant); try eassumption; try done.
  - intros c Hc. rewrite Hcls. apply only_combatants_handle; [by left|done].
  - rewrite Hcls. change (handlers_of Combatant Damage) with [Combatant_handle_damage].
    simpl. by rewrite (handle_damage_plain _ ev st th b a).
Qed.

Lemma dispatch_death cs layer name r mods ty e (ev : FEvent) (st : FState)
    (th : Thing.t ComponentClass) :
  ThingType_init implementedBy cs layer name r mods = Ok ty ->
  Combatant ∈ cs ->
  get_thing e st = Ok th -> Thing.type th = ty ->
  Event.event_class ev = Die ->
  handle_event e ev st =
    Ok (ev, call_world (current_map_remove e)
              (print (ThingType.name ty ++ " has died")%string st)).
Proof.
  intros Hinit Hin Hth Hty Hcls.
  eapply (dispatch_single _ _ _ _ _ _ Combatant); try eassumption; try done.
  - intros c Hc. rewrite Hcls. apply only_combatants_handle; [by right|done].
  - rewrite Hcls. change (handlers_of Combatant Die) with [Combatant_handle_death].
    simpl. unfold Combatant_handle_death. simpl. rewrite Hth. simpl.
    by rewrite Hty.
Qed.

(** C2.  An entity whose type holds the [Combatant] component, with no
    modifiers and health never written (default 10): a [Damage] event of
    amount 5 leaves stored health 5 and makes no call on the world; a second
    one leaves stored health 0 and calls [world.queue_immediate_event] with
    [Die(entity)]; handling a [Die] event calls [world.current_map.remove]
    on the entity.  In general a damage of [a] on stored health [h] stores
    [h - a] and queues [Die(entity)] exactly when [h - a <= 0]. *)
Theorem combat_scenario cs layer name r mods ty (e : thing_id) (st : FState)
    (th : Thing.t ComponentClass) (dmg die : FEvent) :
  ThingType_init implementedBy cs layer name r mods = Ok ty ->
  Combatant ∈ cs ->
  get_thing e st = Ok th -> Thing.type th = ty ->
  Thing.modifiers th = [] ->
  Thing.component_data th !! health_attr = None ->
  Event.event_class dmg = Damage -> Event.amount dmg = Some 5 ->
  Event.event_class die = Die ->
  (exists st1 st2 st3,
     handle_event e dmg st = Ok (dmg, st1) /\
     stored st1 e health_attr = Some (VInt 5) /\
     world st1 = world st /\
     handle_event e dmg st1 = Ok (dmg, st2) /\
     stored st2 e health_attr = Some (VInt 0) /\
     world st2 = world st ++ [queue_immediate_event Die [AThing e]] /\
     handle_event e die st2 = Ok (die, st3) /\
     world st3 = world st2 ++ [current_map_remove e]) /\
  (forall (ev : FEvent) (st' : FState) (th' : Thing.t ComponentClass) (h a : Z),
     get_thing e st' = Ok th' -> Thing.type th' = ty ->
     Thing.modifiers th' = [] ->
     Thing.component_data th' !! health_attr = Some (VInt h) ->
     Event.event_class ev = Damage -> Event.amount ev = Some a ->
     exists st'',
       handle_event e ev st' = Ok (ev, st'') /\
       stored st'' e health_attr = Some (VInt (h - a)) /\
       world st'' =
         world st' ++
         (if bool_decide (h - a <= 0)
          then [queue_immediate_event Die [AThing e]] else [])).
Proof.
  intros Hinit Hin Hth Hty Hmods Hdata Hdmg Hamount Hdie.
  split.
  - set (th1 := Thing.set_data th (<[health_attr := VInt 5]>
                                     (Thing.component_data th))).
    set (st1 := put_thing e th1 st).
    set (th2 := Thing.set_data th1 (<[health_attr := VInt 0]>
                                      (Thing.component_data th1))).
    set (st2 := call_world (queue_immediate_event Die [AThing e])
                  (put_thing e th2 st1)).
    exists st1, st2,
      (call_world (current_map_remove e)
         (print (ThingType.name ty ++ " has died")%string st2)).
    split; [|split; [|split; [|split; [|split; [|split; [|split]]]]]].
    + rewrite (dispatch_damage cs layer name r mods ty e dmg st th 10 5);
        try done. by rewrite Hdata.
    + unfold stored, st1, put_thing. simpl. rewrite lookup_insert_eq.
      simpl. by rewrite lookup_insert_eq.
    + done.
    + rewrite (dispatch_damage cs layer name r mods ty e dmg st1 th1 5 5);
        try done.
      * apply get_thing_put.
      * simpl. by rewrite lookup_insert_eq.
    + unfold stored, st2, put_thing. simpl. rewrite lookup_insert_eq.
      simpl. by rewrite lookup_insert_eq.
    + done.
    + apply (dispatch_death cs layer name r mods ty e die st2 th2); try done.
      unfold get_thing, st2. simpl. by rewrite lookup_insert_eq.
    + done.
  - intros ev st' th' h a Hth' Hty' Hmods' Hdata' Hcls Ha.
    eexists. split.
    + apply (dispatch_damage cs layer name r mods ty e ev st' th' h a);
        try done. by rewrite Hdata'.
    + simpl. destruct (bool_decide (h - a <= 0)); simpl.
      * split; [|done]. unfold stored. simpl. rewrite lookup_insert_eq.
        simpl. by rewrite lookup_insert_eq.
      * split; [|by rewrite app_nil_r]. unfold stored. simpl.
        rewrite lookup_insert_eq. simpl. by rewrite lookup_insert_eq.
Qed.

(** ** Walking into a solid entity *)

(** C3.  An entity whose type holds the [Solid] component handles a [Walk]
    event by setting the event's [cancelled] flag and nothing else: no call
    is made on the world, so no position changes, the mover's included.
    Setting the flag does not end dispatch: for any components and handlers,
    after a handler has returned the event cancelled, the handlers left in
    the component and the components left in the type are still run on that
    event. *)
Theorem solid_cancels_walk cs layer name r mods ty (e : thing_id) (st : FState)
    (th : Thing.t ComponentClass) (ev : FEvent) :
  ThingType_init implementedBy cs layer name r mods = Ok ty ->
  Solid ∈ cs ->
  get_thing e st = Ok th -> Thing.type th = ty ->
  Event.event_class ev = Walk ->
  handle_event e ev st = Ok (Event.cancel ev, st) /\
  Event.cancelled (Event.cancel ev) = true /\
  (forall (Cls EvC : Type) (EvC_eq_dec : EqDecision EvC)
          (eh : Cls -> table EvC (handler_fn Cls EvC)) (mro : EvC -> list EvC)
          (e' : thing_id) (items1 items2 : list (Iface * Cls)) (i : Iface)
          (c : Cls) (ev0 ev1 ev2 ev3 : Event.t EvC)
          (st0 st1 st2 st3 : State Cls EvC)
          (hs1 hs2 : list (handler_fn Cls EvC)) (h : handler_fn Cls EvC),
     let adapted := {| component_class := c; iface := i; entity := e' |} in
     handle_event_items eh mro e' items1 ev0 st0 = Ok (ev1, st1) ->
     flat_map (table_get (eh c)) (mro (Event.event_class ev1)) = hs1 ++ h :: hs2 ->
     run_handlers hs1 adapted ev1 st1 = Ok (ev2, st2) ->
     h adapted ev2 st2 = Ok (ev3, st3) ->
     Event.cancelled ev3 = true ->
     handle_event_items eh mro e' (items1 ++ (i, c) :: items2) ev0 st0 =
       let* '(ev4, st4) := run_handlers hs2 adapted ev3 st3 in
       handle_event_items eh mro e' items2 ev4 st4).
Proof.
  intros Hinit Hin Hth Hty Hcls. split; [|split; [done|]].
  - eapply (dispatch_single _ _ _ _ _ _ Solid); try eassumption; try done.
    + intros c Hc. rewrite Hcls. by apply only_physics_handle_walk.
    + rewrite Hcls. change (handlers_of Solid Walk) with [Solid_handle_walk].
      done.
  - intros Cls EvC EvC_eq_dec eh mro e' items1 items2 i c ev0 ev1 ev2 ev3
           st0 st1 st2 st3 hs1 hs2 h.
    apply cancel_is_advisory.
Qed.

(** ** Equipment *)

Lemma apply_modifiers_list mods attr (l : list thing_id) (v : value) :
  apply_modifiers mods attr (VList l) = Ok v -> v = VList l.
Proof.
  induction mods as [|m mods IH]; simpl.
  - by intros [= <-].
  - unfold Modifier.modify.
    destruct (bool_decide (attr ≠ Modifier.stat m)); simpl; [exact IH|discriminate].
Qed.

Lemma apply_modifiers_VInt_inv mods attr (v : value) (z : Z) :
  apply_modifiers mods attr v = Ok (VInt z) ->
  exists b, v = VInt b /\ z = b + sum_adds attr mods.
Proof.
  destruct v as [b|l].
  - rewrite apply_modifiers_int. intros [= <-]. by exists b.
  - intros H. by apply apply_modifiers_list in H.
Qed.

(** Reading a slot after more modifiers were appended to the entity's list. *)
Lemma get_add_modifiers {Cls EvC : Type} (desc : ComponentAttribute Cls)
    (self : Component Cls) (st st2 st_r : State Cls EvC) (th : Thing.t Cls)
    (extra : list Modifier.t) (z : Z) :
  get_thing (entity self) st = Ok th ->
  get_thing (entity self) st2 = Ok (Thing.add_modifiers th extra) ->
  ComponentAttribute_get desc self st = Ok (VInt z, st_r) ->
  exists st_r',
    ComponentAttribute_get desc self st2 =
      Ok (VInt (z + sum_adds (zope_attribute desc) extra), st_r').
Proof.
  intros Hth Hth2 Hget.
  destruct (Thing.component_data th !! zope_attribute desc) as [v|] eqn:Hdata.
  - rewrite (get_stored desc self st th v Hth Hdata) in Hget.
    destruct (apply_modifiers (Thing.modifiers th) (zope_attribute desc) v)
      as [v'|] eqn:Hv; simpl in Hget; [|discriminate].
    injection Hget as -> _.
    apply apply_modifiers_VInt_inv in Hv as (b & -> & ->).
    rewrite (get_stored desc self st2 _ (VInt b) Hth2 Hdata). simpl.
    rewrite apply_modifiers_int, sum_adds_app. simpl.
    eexists. do 3 f_equal. lia.
  - rewrite (get_fresh desc self st th Hth Hdata) in Hget.
    destruct (apply_modifiers (Thing.modifiers th) (zope_attribute desc)
                              (initializer desc self))
      as [v'|] eqn:Hv; simpl in Hget; [|discriminate].
    injection Hget as -> _.
    apply apply_modifiers_VInt_inv in Hv as (b & Hb & ->).
    rewrite (get_fresh desc self st2 _ Hth2 Hdata). simpl.
    rewrite Hb, apply_modifiers_int, sum_adds_app. simpl.
    eexists. do 3 f_equal. lia.
Qed.

(** C5.  An entity whose type holds the [Equipment] component handles an
    [Equip] event by appending the modifiers of its type (not those of the
    item instance), with no test of any kind, to the modifier list of the
    event's actor, the wearer.  A read of a slot of the wearer that returned
    [z] before returns [z] plus what the appended modifiers add to the slot;
    for the type-level modifier of [Armor], strength +3, a strength read
    gains 3. *)
Theorem equip_appends_type_modifiers cs layer name r mods ty (it w : thing_id)
    (st : FState) (th_it th_w : Thing.t ComponentClass) (ev : FEvent) :
  ThingType_init implementedBy cs layer name r mods = Ok ty ->
  Equipment ∈ cs ->
  get_thing it st = Ok th_it -> Thing.type th_it = ty ->
  get_thing w st = Ok th_w ->
  Event.event_class ev = Equip -> Event.actor ev = Some w ->
  let st' := put_thing w (Thing.add_modifiers th_w mods)
               (print "you put on the armor" st) in
  handle_event it ev st = Ok (ev, st') /\
  ThingType.modifiers ty = mods /\
  (exists th_w', get_thing w st' = Ok th_w' /\
                 Thing.modifiers th_w' = Thing.modifiers th_w ++ mods) /\
  (forall (desc : ComponentAttribute ComponentClass) (self : FComponent)
          (z : Z) (st_r : FState),
     entity self = w ->
     ComponentAttribute_get desc self st = Ok (VInt z, st_r) ->
     exists st_r',
       ComponentAttribute_get desc self st' =
         Ok (VInt (z + sum_adds (zope_attribute desc) mods), st_r')) /\
  (mods = [{| Modifier.stat := strength_attr; Modifier.add := 3 |}] ->
   forall (self : FComponent) (z : Z) (st_r : FState),
     entity self = w ->
     ComponentAttribute_get Combatant_strength self st = Ok (VInt z, st_r) ->
     exists st_r',
       ComponentAttribute_get Combatant_strength self st' = Ok (VInt (z + 3), st_r')).
Proof.
  intros Hinit Hin Hit Hty Hw Hcls Hactor st'.
  pose proof (init_components _ _ _ _ _ _ Hinit) as (_ & _ & Hmods).
  assert (Hw' : get_thing w st' = Ok (Thing.add_modifiers th_w mods))
    by apply get_thing_put.
  assert (Hreads :
    forall (desc : ComponentAttribute ComponentClass) (self : FComponent)
           (z : Z) (st_r : FState),
      entity self = w ->
      ComponentAttribute_get desc self st = Ok (VInt z, st_r) ->
      exists st_r',
        ComponentAttribute_get desc self st' =
          Ok (VInt (z + sum_adds (zope_attribute desc) mods), st_r')).
  { intros desc self z st_r Hself Hget. subst w.
    by apply (get_add_modifiers desc self st st' st_r th_w mods z). }
  split; [|split; [done|split; [|split; [exact Hreads|]]]].
  - eapply (dispatch_single _ _ _ _ _ _ Equipment); try eassumption; try done.
    + intros c Hc. rewrite Hcls. by apply only_equipment_handles_equip.
    + rewrite Hcls. change (handlers_of Equipment Equip) with [Equipment_handle_equip].
      simpl. unfold Equipment_handle_equip. rewrite Hactor. simpl.
      change (get_thing w (print "you put on the armor" st)) with (get_thing w st).
      change (get_thing it (print "you put on the armor" st)) with (get_thing it st).
      rewrite Hw, Hit. simpl. by rewrite Hty, Hmods.
  - eexists. split; [exact Hw'|done].
  - intros -> self z st_r Hself Hget.
    destruct (Hreads Combatant_strength self z st_r Hself Hget) as [st_r' H].
    exists st_r'. exact H.
Qed.

(** ** The scenarios on concrete entities *)

Lemma Player_value : Player = Ok player_type.
Proof. reflexivity. Qed.

Lemma Armor_value : Armor = Ok armor_type.
Proof. reflexivity. Qed.

Lemma Wall_value : Wall = Ok wall_type.
Proof. reflexivity. Qed.

Lemma combat_scenario_witness :
  exists st1 st2 st3,
    handle_event 1%nat (mk_event Damage None None (Some 5)) small_world
      = Ok (mk_event Damage None None (Some 5), st1) /\
    stored st1 1%nat health_attr = Some (VInt 5) /\
    world st1 = [] /\
    handle_event 1%nat (mk_event Damage None None (Some 5)) st1
      = Ok (mk_event Damage None None (Some 5), st2) /\
    stored st2 1%nat health_attr = Some (VInt 0) /\
    world st2 = [queue_immediate_event Die [AThing 1%nat]] /\
    handle_event 1%nat (mk_event Die None None None) st2
      = Ok (mk_event Die None None None, st3) /\
    world st3 = world st2 ++ [current_map_remove 1%nat].
Proof.
  refine (proj1 (combat_scenario
                   [Solid; Combatant; Container; PlayerIntelligence]
                   creature "you" ("☻", "player") [] player_type 1%nat
                   small_world (Thing.init player_type)
                   (mk_event Damage None None (Some 5))
                   (mk_event Die None None None)
                   eq_refl _ eq_refl eq_refl eq_refl eq_refl eq_refl eq_refl
                   eq_refl)).
  by apply (bool_decide_unpack _).
Defined.

Lemma solid_cancels_walk_witness :
  handle_event 3%nat (mk_event Walk (Some 1%nat) (Some (0, 1)) None) small_world
    = Ok (Event.cancel (mk_event Walk (Some 1%nat) (Some (0, 1)) None), small_world) /\
  Event.cancelled (Event.cancel (mk_event Walk (Some 1%nat) (Some (0, 1)) None)) = true.
Proof.
  destruct (solid_cancels_walk [Solid] architecture "wall" ("▒", "default") []
              wall_type 3%nat small_world (Thing.init wall_type)
              (mk_event Walk (Some 1%nat) (Some (0, 1)) None)
              eq_refl (list_elem_of_here _ _) eq_refl eq_refl eq_refl)
    as (H1 & H2 & _).
  exact (conj H1 H2).
Defined.

Lemma equip_appends_type_modifiers_witness :
  exists st',
    handle_event 2%nat (mk_event Equip (Some 1%nat) None None) small_world
      = Ok (mk_event Equip (Some 1%nat) None None, st') /\
    ComponentAttribute_get Combatant_strength combatant_1 small_world
      = Ok (VInt 3,
            put_thing 1%nat
              (Thing.set_data (Thing.init player_type) {[ strength_attr := VInt 3 ]})
              small_world) /\
    exists st_r',
      ComponentAttribute_get Combatant_strength combatant_1 st'
        = Ok (VInt (3 + 3), st_r').
Proof.
  destruct (equip_appends_type_modifiers [Portable; Equipment]
              item "armor" ("[", "default")
              [{| Modifier.stat := strength_attr; Modifier.add := 3 |}]
              armor_type 2%nat 1%nat small_world
              (Thing.init armor_type) (Thing.init player_type)
              (mk_event Equip (Some 1%nat) None None)
              eq_refl (list_elem_of_further _ _ _ (list_elem_of_here _ _))
              eq_refl eq_refl eq_refl eq_refl eq_refl)
    as (H1 & _ & _ & _ & H5).
  eexists. split; [exact H1|]. split; [reflexivity|].
  exact (H5 eq_refl combatant_1 3 _ eq_refl eq_refl).
Defined.

Lemma damage_bakes_modifiers_witness :
  Combatant_handle_damage combatant_1 (mk_event Damage None None (Some 5))
    blessed_world
  = Ok (mk_event Damage None None (Some 5),
        put_thing 1%nat
          (Thing.set_data blessed_player {[ health_attr := VInt 7 ]})
          blessed_world) /\
  ComponentAttribute_get Combatant_health combatant_1
    (put_thing 1%nat (Thing.set_data blessed_player {[ health_attr := VInt 7 ]})
       blessed_world)
  = Ok (VInt 9,
        put_thing 1%nat (Thing.set_data blessed_player {[ health_attr := VInt 7 ]})
          blessed_world).
Proof.
  destruct (damage_bakes_modifiers combatant_1
              (mk_event Damage None None (Some 5)) blessed_world
              blessed_player 10 5 eq_refl eq_refl eq_refl)
    as (H1 & _ & H3 & _).
  exact (conj H1 H3).
Defined.

Lemma wall_ignores_damage i c cls :
  (i, c) ∈ ThingType.components wall_type ->
  cls ∈ flax_mro Damage ->
  table_get (event_handlers c) cls = [].
Proof.
  intros [= -> ->]%list_elem_of_singleton Hcls.
  repeat (apply elem_of_cons in Hcls as [->|Hcls]; [reflexivity|]).
  by apply elem_of_nil in Hcls.
Qed.

Lemma dispatch_without_handlers_witness :
  handle_event 3%nat (mk_event Damage None None (Some 5)) small_world
    = Ok (mk_event Damage None None (Some 5), small_world) /\
  bound_handlers event_handlers flax_mro 3%nat (ThingType.components wall_type)
                 Damage = [].
Proof.
  destruct (dispatch_without_handlers event_handlers flax_mro 3%nat
              (mk_event Damage None None (Some 5)) small_world
              (Thing.init wall_type) eq_refl wall_ignores_damage)
    as (H1 & H2 & _).
  exact (conj H1 H2).
Defined.

(** * Further properties of the sources *)

(** ** Reading and writing slots *)

Section MoreSlotProperties.
Context {Cls EvC : Type}.
Implicit Types (st : State Cls EvC) (th : Thing.t Cls) (self : Component Cls).
Implicit Types (desc : ComponentAttribute Cls).

(** X1.  A read that succeeds can be repeated: the second read returns the
    same value and changes nothing.  The first read leaves every value
    already stored as it was, and keeps the type and the modifier list of
    every entity: what the modifiers add is never written back. *)
Theorem read_is_stable desc self st st1 (v : value) :
  ComponentAttribute_get desc self st = Ok (v, st1) ->
  ComponentAttribute_get desc self st1 = Ok (v, st1) /\
  (forall e a w, stored st e a = Some w -> stored st1 e a = Some w) /\
  (forall e th, things st !! e = Some th ->
     exists th1, things st1 !! e = Some th1 /\
                 Thing.type th1 = Thing.type th /\
                 Thing.modifiers th1 = Thing.modifiers th) /\
  world st1 = world st /\ stdout st1 = stdout st.
Proof.
  intros Hget.
  destruct (get_thing (entity self) st) as [th|err] eqn:Hth.
  2:{ unfold ComponentAttribute_get in Hget. by rewrite Hth in Hget. }
  destruct (Thing.component_data th !! zope_attribute desc) as [w|] eqn:Hdata.
  - pose proof Hget as Hget0.
    rewrite (get_stored desc self st th w Hth Hdata) in Hget.
    destruct (apply_modifiers _ _ w) as [v'|]; simpl in Hget; [|discriminate].
    injection Hget as -> ->.
    split; [done|]. split; [done|]. split; [|done].
    intros e th0 He. by exists th0.
  - rewrite (get_fresh desc self st th Hth Hdata) in Hget.
    destruct (apply_modifiers _ _ (initializer desc self)) as [v'|] eqn:Hv;
      simpl in Hget; [|discriminate].
    injection Hget as -> <-.
    split; [|split; [|split; [|done]]].
    + rewrite (get_stored desc self _ _ (initializer desc self)
                 (get_thing_put _ _ _)).
      * simpl. by rewrite Hv.
      * simpl. by rewrite lookup_insert_eq.
    + intros e a w. unfold stored, put_thing. simpl.
      destruct (decide (entity self = e)) as [<-|Hne].
      * rewrite lookup_insert_eq. apply get_thing_Ok in Hth. rewrite Hth. simpl.
        destruct (decide (zope_attribute desc = a)) as [<-|Ha].
        -- by rewrite Hdata.
        -- by rewrite lookup_insert_ne.
      * by rewrite lookup_insert_ne.
    + intros e th0 He. unfold put_thing. simpl.
      destruct (decide (entity self = e)) as [<-|Hne].
      * rewrite lookup_insert_eq. apply get_thing_Ok in Hth.
        rewrite Hth in He. injection He as <-. by eexists.
      * rewrite lookup_insert_ne by done. by exists th0.
Qed.

(** X2.  A write stores the value as given, whatever its kind; it touches
    no other slot and no other entity, keeps every modifier list, and is
    overwritten whole by the next write to the slot. *)
Theorem write_is_local desc self st st1 (v : value) :
  ComponentAttribute_set desc self v st = Ok st1 ->
  stored st1 (entity self) (zope_attribute desc) = Some v /\
  (forall e a, (e, a) ≠ (entity self, zope_attribute desc) ->
               stored st1 e a = stored st e a) /\
  (forall e th, things st !! e = Some th ->
     exists th1, things st1 !! e = Some th1 /\
                 Thing.type th1 = Thing.type th /\
                 Thing.modifiers th1 = Thing.modifiers th) /\
  (forall v', ComponentAttribute_set desc self v' st1 =
              ComponentAttribute_set desc self v' st).
Proof.
  intros Hset.
  destruct (get_thing (entity self) st) as [th|err] eqn:Hth.
  2:{ unfold ComponentAttribute_set in Hset. by rewrite Hth in Hset. }
  rewrite (set_Ok desc self st th v Hth) in Hset. injection Hset as <-.
  pose proof Hth as Hlook%get_thing_Ok.
  split; [|split; [|split]].
  - unfold stored, put_thing. simpl. rewrite lookup_insert_eq. simpl.
    by rewrite lookup_insert_eq.
  - intros e a Hne. unfold stored, put_thing. simpl.
    destruct (decide (entity self = e)) as [<-|He].
    + rewrite lookup_insert_eq, Hlook. simpl.
      rewrite lookup_insert_ne; [done|]. intros <-. by apply Hne.
    + by rewrite lookup_insert_ne.
  - intros e th0 He. unfold put_thing. simpl.
    destruct (decide (entity self = e)) as [<-|Hne].
    + rewrite lookup_insert_eq. rewrite Hlook in He. injection He as <-.
      by eexists.
    + rewrite lookup_insert_ne by done. by exists th0.
  - intros v'. rewrite (set_Ok desc self _ _ v' (get_thing_put _ _ _)).
    rewrite (set_Ok desc self st th v' Hth). simpl.
    by rewrite insert_insert_eq, put_thing_put.
Qed.
End MoreSlotProperties.

Lemma apply_modifiers_list_cases mods attr (l : list thing_id) :
  (Forall (fun m => attr ≠ Modifier.stat m) mods /\
   apply_modifiers mods attr (VList l) = Ok (VList l)) \/
  (Exists (fun m => attr = Modifier.stat m) mods /\
   apply_modifiers mods attr (VList l) = Raise TypeError).
Proof.
  induction mods as [|m mods IH]; simpl.
  - left. by split.
  - unfold Modifier.modify.
    destruct (decide (attr = Modifier.stat m)) as [Heq|Hne].
    + rewrite bool_decide_eq_false_2 by tauto. simpl.
      right. split; [by left|done].
    + rewrite bool_decide_eq_true_2 by done. simpl.
      destruct IH as [[Hall ->]|[Hex ->]].
      * left. split; [by constructor|done].
      * right. split; [by right|done].
Qed.

(** X3.  A slot that holds a list, such as an inventory, reads back as the
    list itself when no modifier of the entity targets the slot; as soon as
    one does, every read of the slot raises [TypeError]. *)
Theorem list_slot_read {Cls EvC : Type} (desc : ComponentAttribute Cls)
    (self : Component Cls) (st : State Cls EvC) (th : Thing.t Cls)
    (l : list thing_id) :
  get_thing (entity self) st = Ok th ->
  Thing.component_data th !! zope_attribute desc = Some (VList l) ->
  (Forall (fun m => zope_attribute desc ≠ Modifier.stat m) (Thing.modifiers th) ->
   ComponentAttribute_get desc self st = Ok (VList l, st)) /\
  (Exists (fun m => zope_attribute desc = Modifier.stat m) (Thing.modifiers th) ->
   ComponentAttribute_get desc self st = Raise TypeError).
Proof.
  intros Hth Hdata. rewrite (get_stored desc self st th (VList l) Hth Hdata).
  destruct (apply_modifiers_list_cases (Thing.modifiers th) (zope_attribute desc) l)
    as [[Hall ->]|[Hex ->]]; simpl.
  - split; [done|]. intros Hex. apply Exists_exists in Hex as (m & Hm & Heq).
    rewrite Forall_forall in Hall. by destruct (Hall m Hm).
  - split; [|done]. intros Hall. apply Exists_exists in Hex as (m & Hm & Heq).
    rewrite Forall_forall in Hall. by destruct (Hall m Hm).
Qed.

(** ** Looking a capability up *)

Lemma init_components_entries {Cls : Type} (implementedBy : Cls -> list Iface)
    cs layer name r mods ty :
  ThingType_init implementedBy cs layer name r mods = Ok ty ->
  ThingType.components ty = flat_map (entries implementedBy) cs /\
  ThingType.layer ty = layer /\ ThingType.name ty = name /\
  ThingType.modifiers ty = mods.
Proof.
  unfold ThingType_init.
  destruct (register_components implementedBy cs []) as [comps|e] eqn:Hreg;
    simpl; [|discriminate].
  intros [= <-]. simpl.
  by apply register_components_Ok in Hreg as (-> & _ & _).
Qed.

Lemma elem_of_flat_entries {Cls : Type} (implementedBy : Cls -> list Iface)
    (cs : list Cls) (i : Iface) (c : Cls) :
  (i, c) ∈ flat_map (entries implementedBy) cs <->
  c ∈ cs /\ i ∈ capabilities implementedBy c.
Proof.
  rewrite elem_of_flat_map. unfold entries. split.
  - intros (c' & Hc' & Hic). apply list_elem_of_fmap in Hic as (i' & [= -> ->] & Hi').
    done.
  - intros [Hc Hi]. exists c. split; [done|]. apply list_elem_of_fmap. by exists i.
Qed.

(** X4.  [Thing.__conform__] on an entity whose type was built by
    [ThingType.__init__]: a capability that one of the supplied components
    implements is found, and the instance returned is of a supplied component
    that implements it, bound to the entity; any other interface, the marker
    [IComponent] included, raises [KeyError]. *)
Theorem capability_lookup {Cls EvC : Type} (implementedBy : Cls -> list Iface)
    cs layer name r mods ty (e : thing_id) (i : Iface) (st : State Cls EvC)
    (th : Thing.t Cls) :
  ThingType_init implementedBy cs layer name r mods = Ok ty ->
  get_thing e st = Ok th -> Thing.type th = ty ->
  (i ∈ flat_map (capabilities implementedBy) cs ->
   exists c,
     Thing_conform e i st =
       Ok {| component_class := c; iface := i; entity := e |} /\
     c ∈ cs /\ i ∈ implementedBy c) /\
  (i ∉ flat_map (capabilities implementedBy) cs ->
   Thing_conform e i st = Raise KeyError) /\
  Thing_conform e IComponent st = Raise KeyError.
Proof.
  intros Hinit Hth Hty.
  apply init_components_entries in Hinit as (Hcomps & _).
  assert (Hmiss : forall k, k ∉ flat_map (capabilities implementedBy) cs ->
                            Thing_conform e k st = Raise KeyError).
  { intros k Hk. unfold Thing_conform. rewrite Hth. simpl. rewrite Hty, Hcomps.
    destruct (list_find _ _) as [[n [k' c]]|] eqn:Hfind; [|done].
    apply list_find_Some in Hfind as (Hn & Hk' & _). simpl in Hk'. subst k'.
    destruct Hk. rewrite <- flat_entries_keys.
    apply list_elem_of_fmap. exists (k, c). split; [done|].
    by apply list_elem_of_lookup_2 in Hn. }
  split; [|split; [apply Hmiss|]].
  - intros Hi. unfold Thing_conform. rewrite Hth. simpl. rewrite Hty, Hcomps.
    destruct (list_find _ _) as [[n [k c]]|] eqn:Hfind.
    + apply list_find_Some in Hfind as (Hn & Hk & _). simpl in Hk. subst k.
      exists c. split; [done|].
      apply list_elem_of_lookup_2, elem_of_flat_entries in Hn as [Hc Hic].
      by apply elem_of_capabilities in Hic as [_ Hic].
    + apply list_find_None in Hfind. rewrite Forall_forall in Hfind.
      rewrite <- flat_entries_keys in Hi.
      apply list_elem_of_fmap in Hi as ([k c] & -> & Hp).
      by destruct (Hfind _ Hp).
  - apply Hmiss. intros (c & _ & Hi)%elem_of_flat_map.
    by apply elem_of_capabilities in Hi as [Hne _].
Qed.

(** ** More on handler registration *)

Section MoreRegistrationFacts.
Context {EvC F : Type} `{EqDecision EvC}.
Implicit Types (attrs items : namespace EvC F) (t : table EvC F).

Lemma stacked_cons (c : EvC) (cs : list EvC) (f : F) :
  exists h, stacked (c :: cs) f = Wrapped h /\ func h = f /\
            event_classes h = rev (c :: cs).
Proof.
  revert c. induction cs as [|c' cs IH]; intros c.
  - by eexists.
  - destruct (IH c') as (h & Hh & Hf & Hcls).
    unfold stacked in *. simpl in *. rewrite Hh. simpl.
    eexists. split; [reflexivity|]. simpl. split; [done|]. by rewrite Hcls.
Qed.

Lemma flat_map_count (f : F) (c : EvC) (l : list EvC) :
  flat_map (fun c' => if bool_decide (c' = c) then [f] else []) l =
  replicate (length (filter (fun c' => c' = c) l)) f.
Proof.
  induction l as [|a l IH]; simpl; [done|].
  destruct (decide (a = c)) as [->|Hne].
  - rewrite bool_decide_eq_true_2, filter_cons_True by done. simpl. by rewrite IH.
  - rewrite bool_decide_eq_false_2, filter_cons_False by done. simpl. by rewrite IH.
Qed.

Lemma filter_rev_length (c : EvC) (l : list EvC) :
  length (filter (fun c' => c' = c) (rev l)) =
  length (filter (fun c' => c' = c) l).
Proof.
  induction l as [|a l IH]; simpl; [done|].
  rewrite filter_app, length_app, IH.
  destruct (decide (a = c)) as [->|Hne].
  - rewrite !filter_cons_True by done. simpl. lia.
  - rewrite !filter_cons_False by done. simpl. lia.
Qed.

(** X5.  Decorators [@handler(...)] stacked over one function make a single
    [Handler] that lists the event classes bottom-up, and the metaclass
    enters the function in the table once for each decorator naming a class:
    a function decorated twice for the same class is called twice for one
    event, an undecorated one is never entered. *)
Theorem stacked_handlers (classes : list EvC) (f : F) (name key : string)
    (bases : list (PyClass EvC F)) (c : EvC) :
  (classes ≠ [] ->
   exists h, stacked classes f = Wrapped h /\ func h = f /\
             event_classes h = rev classes) /\
  table_get (class_event_handlers
               (ComponentMeta_new name bases [(key, as_attr (stacked classes f))])) c
  = replicate (length (filter (fun c' => c' = c) classes)) f.
Proof.
  split.
  - destruct classes as [|c0 cs]; [done|]. intros _. apply stacked_cons.
  - rewrite table_get_new. unfold declared_for. simpl. rewrite app_nil_r.
    destruct classes as [|c0 cs]; [done|].
    destruct (stacked_cons c0 cs f) as (h & Hs & Hf & Hcls). rewrite Hs. simpl.
    by rewrite Hf, Hcls, flat_map_count, filter_rev_length.
Qed.

Lemma dict_get_del attrs (k key : string) :
  dict_get (dict_del attrs k) key =
  if bool_decide (key = k) then None else dict_get attrs key.
Proof.
  unfold dict_del, namespace in *. induction attrs as [|[k0 x] attrs IH].
  - simpl. by destruct (bool_decide (key = k)).
  - destruct (decide (k0 = k)) as [->|Hk0].
    + rewrite filter_cons_False by (simpl; tauto). rewrite IH. simpl.
      destruct (decide (key = k)) as [->|Hkey].
      * by rewrite bool_decide_eq_true_2.
      * rewrite (bool_decide_eq_false_2 (key = k)) by done.
        by rewrite bool_decide_eq_false_2 by congruence.
    + rewrite filter_cons_True by done. simpl. rewrite IH.
      destruct (decide (k0 = key)) as [->|Hk0'].
      * rewrite bool_decide_eq_true_2 by done.
        by rewrite bool_decide_eq_false_2 by done.
      * by rewrite (bool_decide_eq_false_2 (k0 = key)) by done.
Qed.

Lemma dict_get_set_ne attrs (k key : string) (v : class_attr EvC F) :
  key ≠ k -> dict_get (dict_set attrs k v) key = dict_get attrs key.
Proof.
  intros Hne. induction attrs as [|[k0 x] attrs IH]; simpl.
  - by rewrite bool_decide_eq_false_2 by congruence.
  - destruct (decide (k0 = k)) as [->|Hk0].
    + rewrite bool_decide_eq_true_2 by done. simpl.
      by rewrite bool_decide_eq_false_2 by congruence.
    + rewrite bool_decide_eq_false_2 by done. simpl. by rewrite IH.
Qed.

Lemma dict_get_elem_of attrs (key : string) (v : class_attr EvC F) :
  dict_get attrs key = Some v -> (key, v) ∈ attrs.
Proof.
  induction attrs as [|[k0 x] attrs IH]; simpl; [done|].
  destruct (decide (k0 = key)) as [->|Hk0].
  - rewrite bool_decide_eq_true_2 by done. intros [= ->]. by left.
  - rewrite bool_decide_eq_false_2 by done. intros Hv. right. by apply IH.
Qed.

Lemma elem_of_dict_get attrs (key : string) (v : class_attr EvC F) :
  NoDup attrs.*1 -> (key, v) ∈ attrs -> dict_get attrs key = Some v.
Proof.
  induction attrs as [|[k0 x] attrs IH]; simpl.
  - by intros _ Hv%elem_of_nil.
  - intros [Hk0 Hnd]%NoDup_cons [[= <- <-]|Hin]%elem_of_cons.
    + by rewrite bool_decide_eq_true_2.
    + rewrite bool_decide_eq_false_2; [by apply IH|].
      intros ->. apply Hk0. apply list_elem_of_fmap. by exists (key, v).
Qed.

Lemma collect_keeps_missing items t attrs (key : string) :
  dict_get attrs key = None ->
  dict_get (collect_handlers items t attrs).2 key = None.
Proof.
  revert t attrs. induction items as [|[k v] items IH]; intros t attrs Hnone;
    simpl; [done|].
  destruct v as [h| |]; try by apply IH.
  apply IH. rewrite dict_get_del. by destruct (bool_decide (key = k)).
Qed.

Lemma collect_drops_handler items t attrs (key : string) (h : Handler EvC F) :
  (key, AHandler h) ∈ items ->
  dict_get (collect_handlers items t attrs).2 key = None.
Proof.
  revert t attrs. induction items as [|[k v] items IH]; intros t attrs Hin; simpl.
  - by apply elem_of_nil in Hin.
  - apply elem_of_cons in Hin as [[= <- <-]|Hin].
    + apply collect_keeps_missing. rewrite dict_get_del.
      by rewrite bool_decide_eq_true_2.
    + destruct v; by apply IH.
Qed.

Lemma collect_keeps_others items t attrs (key : string) :
  (forall h, (key, AHandler h) ∉ items) ->
  dict_get (collect_handlers items t attrs).2 key = dict_get attrs key.
Proof.
  revert t attrs. induction items as [|[k v] items IH]; intros t attrs Hno;
    simpl; [done|].
  assert (Hrest : forall h, (key, AHandler h) ∉ items).
  { intros h Hin. apply (Hno h). by right. }
  destruct v as [h| |]; try by apply IH.
  rewrite IH by done. rewrite dict_get_del.
  rewrite bool_decide_eq_false_2; [done|]. intros ->. apply (Hno h). by left.
Qed.

(** X6.  The class the metaclass builds from a class body (a dict, so with
    distinct names): [event_handlers] is bound to the handler table, whatever
    the body bound that name to; every name the body bound to a [Handler] is
    gone from the namespace, so a handler is not left as a method; every
    other name is bound as in the body. *)
Theorem handlers_leave_namespace (name : string) (bases : list (PyClass EvC F))
    (attrs : namespace EvC F) :
  NoDup attrs.*1 ->
  let cls := ComponentMeta_new name bases attrs in
  dict_get (cls_dict cls) "event_handlers" = Some (ATable (class_event_handlers cls)) /\
  (forall key, key ≠ "event_handlers" ->
     dict_get (cls_dict cls) key =
       match dict_get attrs key with
       | Some (AHandler _) => None
       | other => other
       end).
Proof.
  intros Hnd cls. subst cls.
  rewrite class_event_handlers_new. unfold ComponentMeta_new.
  destruct (collect_handlers attrs [] attrs) as [eh attrs'] eqn:Hc. simpl.
  split; [apply dict_get_set|].
  intros key Hkey. rewrite dict_get_set_ne by done.
  change attrs' with (eh, attrs').2. rewrite <- Hc.
  destruct (dict_get attrs key) as [v|] eqn:Hget.
  - destruct v as [h| |].
    + apply (collect_drops_handler _ _ _ _ h). by apply dict_get_elem_of.
    + rewrite collect_keeps_others; [done|]. intros h Hin.
      apply (elem_of_dict_get _ _ _ Hnd) in Hin. congruence.
    + rewrite collect_keeps_others; [done|]. intros h Hin.
      apply (elem_of_dict_get _ _ _ Hnd) in Hin. congruence.
  - rewrite collect_keeps_others; [done|]. intros h Hin.
    apply (elem_of_dict_get _ _ _ Hnd) in Hin. congruence.
Qed.
End MoreRegistrationFacts.

(** ** What handling an event never does *)

Lemma module_table_eq (c : ComponentClass) (cls : EventClass) :
  table_get (event_handlers c) cls = module_table c cls.
Proof. by destruct c, cls. Qed.

Lemma thing_grows_refl th : thing_grows th th.
Proof. by repeat split. Qed.

Lemma thing_grows_trans th1 th2 th3 :
  thing_grows th1 th2 -> thing_grows th2 th3 -> thing_grows th1 th3.
Proof.
  intros (Ht1 & Hm1 & Hd1) (Ht2 & Hm2 & Hd2). split; [congruence|].
  split; [by etrans|]. intros a Ha. by apply Hd2, Hd1.
Qed.

Lemma state_grows_refl st : state_grows st st.
Proof.
  split; [|done]. intros x. destruct (things st !! x); constructor.
  apply thing_grows_refl.
Qed.

Lemma state_grows_trans st1 st2 st3 :
  state_grows st1 st2 -> state_grows st2 st3 -> state_grows st1 st3.
Proof.
  intros (Hx1 & Hw1 & Ho1) (Hx2 & Hw2 & Ho2).
  split; [|split; by etrans].
  intros x. specialize (Hx1 x). specialize (Hx2 x).
  destruct Hx1 as [th1 th2 H12|]; inversion Hx2; subst; constructor.
  by eapply thing_grows_trans.
Qed.

Lemma event_kept_refl ev : event_kept ev ev.
Proof. by repeat split. Qed.

Lemma event_kept_trans ev1 ev2 ev3 :
  event_kept ev1 ev2 -> event_kept ev2 ev3 -> event_kept ev1 ev3.
Proof.
  intros (Ha1 & Hb1 & Hc1 & Hd1 & He1) (Ha2 & Hb2 & Hc2 & Hd2 & He2).
  repeat split; try congruence. intros H. by apply He2, He1.
Qed.

Lemma put_thing_grows e th th' (st : FState) :
  get_thing e st = Ok th -> thing_grows th th' ->
  state_grows st (put_thing e th' st).
Proof.
  intros Hth%get_thing_Ok Hgrows. split; [|done]. intros x.
  unfold put_thing. simpl. destruct (decide (e = x)) as [<-|Hne].
  - rewrite lookup_insert_eq, Hth. by constructor.
  - rewrite lookup_insert_ne by done.
    destruct (things st !! x); constructor. apply thing_grows_refl.
Qed.

Lemma call_world_grows c (st : FState) : state_grows st (call_world c st).
Proof.
  split; [|split; [by exists [c]|done]]. intros x. simpl.
  destruct (things st !! x); constructor. apply thing_grows_refl.
Qed.

Lemma print_grows line (st : FState) : state_grows st (print line st).
Proof.
  split; [|split; [done|by exists [line]]]. intros x. simpl.
  destruct (things st !! x); constructor. apply thing_grows_refl.
Qed.

Lemma set_data_grows (th : Thing.t ComponentClass) a (v : value) :
  thing_grows th (Thing.set_data th (<[a := v]> (Thing.component_data th))).
Proof.
  split; [done|]. split; [done|]. intros b Hb. simpl.
  destruct (decide (a = b)) as [<-|Hne].
  - rewrite lookup_insert_eq. by eexists.
  - by rewrite lookup_insert_ne.
Qed.

Lemma get_grows desc self (st st1 : FState) (v : value) :
  ComponentAttribute_get desc self st = Ok (v, st1) -> state_grows st st1.
Proof.
  intros Hget.
  destruct (get_thing (entity self) st) as [th|err] eqn:Hth.
  2:{ unfold ComponentAttribute_get in Hget. by rewrite Hth in Hget. }
  destruct (Thing.component_data th !! zope_attribute desc) as [w|] eqn:Hdata.
  - rewrite (get_stored desc self st th w Hth Hdata) in Hget.
    destruct (apply_modifiers _ _ w); simpl in Hget; [|discriminate].
    injection Hget as _ <-. apply state_grows_refl.
  - rewrite (get_fresh desc self st th Hth Hdata) in Hget.
    destruct (apply_modifiers _ _ _); simpl in Hget; [|discriminate].
    injection Hget as _ <-. apply (put_thing_grows _ th); [done|].
    apply set_data_grows.
Qed.

Lemma set_grows desc self (st st1 : FState) (v : value) :
  ComponentAttribute_set desc self v st = Ok st1 -> state_grows st st1.
Proof.
  intros Hset.
  destruct (get_thing (entity self) st) as [th|err] eqn:Hth.
  2:{ unfold ComponentAttribute_set in Hset. by rewrite Hth in Hset. }
  rewrite (set_Ok desc self st th v Hth) in Hset. injection Hset as <-.
  apply (put_thing_grows _ th); [done|]. apply set_data_grows.
Qed.

Tactic Notation "bind_ok" hyp(H) "as" simple_intropattern(p) "eqn" ident(E) :=
  match type of H with
  | rbind ?r _ = Ok _ => destruct r as [p|] eqn:E; simpl in H; [|discriminate H]
  end.

Lemma Solid_handle_walk_keeps : handler_keeps Solid_handle_walk.
Proof.
  intros self ev st ev' st' [= <- <-]. split; [apply state_grows_refl|].
  by repeat split.
Qed.

Lemma Empty_handle_walk_keeps : handler_keeps Empty_handle_walk.
Proof.
  intros self ev st ev' st' H. unfold Empty_handle_walk in H.
  bind_ok H as pos eqn Epos. injection H as <- <-.
  split; [apply call_world_grows|apply event_kept_refl].
Qed.

Lemma Combatant_handle_damage_keeps : handler_keeps Combatant_handle_damage.
Proof.
  intros self ev st ev' st' H. unfold Combatant_handle_damage in H.
  bind_ok H as [health st1] eqn Eget. apply get_grows in Eget.
  bind_ok H as amount eqn Eamount. bind_ok H as health' eqn Esub.
  bind_ok H as st2 eqn Eset. apply set_grows in Eset.
  bind_ok H as [health2 st3] eqn Eget2. apply get_grows in Eget2.
  bind_ok H as dead eqn Edead.
  assert (H13 : state_grows st st3).
  { eapply state_grows_trans; [exact Eget|].
    eapply state_grows_trans; [exact Eset|exact Eget2]. }
  destruct dead; injection H as <- <-; (split; [|apply event_kept_refl]).
  - eapply state_grows_trans; [exact H13|apply call_world_grows].
  - exact H13.
Qed.

Lemma Combatant_handle_attack_keeps : handler_keeps Combatant_handle_attack.
Proof.
  intros self ev st ev' st' H. unfold Combatant_handle_attack in H.
  bind_ok H as a eqn Ea. bind_ok H as attacker eqn Eattacker.
  bind_ok H as me eqn Eme. injection H as <- <-.
  split; [|apply event_kept_refl].
  eapply state_grows_trans; [apply print_grows|apply call_world_grows].
Qed.

Lemma Combatant_handle_death_keeps : handler_keeps Combatant_handle_death.
Proof.
  intros self ev st ev' st' H. unfold Combatant_handle_death in H.
  bind_ok H as me eqn Eme. injection H as <- <-.
  split; [|apply event_kept_refl].
  eapply state_grows_trans; [apply print_grows|apply call_world_grows].
Qed.

Lemma Portable_handle_picked_up_keeps : handler_keeps Portable_handle_picked_up.
Proof.
  intros self ev st ev' st' H. unfold Portable_handle_picked_up in H.
  bind_ok H as me eqn Eme.
  destruct (bool_decide (Thing_layer me ≠ item)); [discriminate|].
  bind_ok H as a eqn Ea. bind_ok H as container eqn Econtainer.
  bind_ok H as desc eqn Edesc.
  bind_ok H as [inventory st1] eqn Eget. apply get_grows in Eget.
  destruct inventory as [|items]; [discriminate|].
  bind_ok H as st2 eqn Eset. apply set_grows in Eset. injection H as <- <-.
  split; [|apply event_kept_refl].
  eapply state_grows_trans; [apply print_grows|].
  eapply state_grows_trans; [apply call_world_grows|].
  eapply state_grows_trans; [exact Eget|exact Eset].
Qed.

Lemma Equipment_handle_equip_keeps : handler_keeps Equipment_handle_equip.
Proof.
  intros self ev st ev' st' H. unfold Equipment_handle_equip in H.
  bind_ok H as a eqn Ea. bind_ok H as wearer eqn Ewearer.
  bind_ok H as me eqn Eme. injection H as <- <-.
  split; [|apply event_kept_refl].
  eapply state_grows_trans; [apply print_grows|].
  apply (put_thing_grows _ wearer); [done|].
  split; [done|]. split; [|done]. simpl. by eexists.
Qed.

Lemma module_handlers_keep (c : ComponentClass) (cls : EventClass) (h : FHandler) :
  h ∈ table_get (event_handlers c) cls -> handler_keeps h.
Proof.
  rewrite module_table_eq.
  destruct c, cls; simpl; intros Hh;
    try (by apply elem_of_nil in Hh);
    apply list_elem_of_singleton in Hh; subst h.
  - apply Solid_handle_walk_keeps.
  - apply Empty_handle_walk_keeps.
  - apply Combatant_handle_attack_keeps.
  - apply Combatant_handle_damage_keeps.
  - apply Combatant_handle_death_keeps.
  - apply Portable_handle_picked_up_keeps.
  - apply Equipment_handle_equip_keeps.
Qed.

Lemma run_handlers_keep (hs : list FHandler) thing ev st ev' st' :
  (forall h, h ∈ hs -> handler_keeps h) ->
  run_handlers hs thing ev st = Ok (ev', st') ->
  state_grows st st' /\ event_kept ev ev'.
Proof.
  revert ev st. induction hs as [|h hs IH]; intros ev st Hall; simpl.
  - intros [= <- <-]. split; [apply state_grows_refl|apply event_kept_refl].
  - intros H. bind_ok H as [ev1 st1] eqn E.
    apply (Hall h) in E as [Hs He]; [|by left].
    apply IH in H as [Hs' He']; [|intros h' Hh'; apply Hall; by right].
    split; [by eapply state_grows_trans|by eapply event_kept_trans].
Qed.

Lemma handle_event_items_keep e items (ev : FEvent) (st : FState) ev' st' :
  handle_event_items event_handlers flax_mro e items ev st = Ok (ev', st') ->
  state_grows st st' /\ event_kept ev ev'.
Proof.
  revert ev st. induction items as [|[i c] items IH]; intros ev st; simpl.
  - intros [= <- <-]. split; [apply state_grows_refl|apply event_kept_refl].
  - intros H. bind_ok H as [ev1 st1] eqn E.
    rewrite Component_handle_event_flat in E. simpl in E.
    apply run_handlers_keep in E as [Hs He].
    2:{ intros h (cls & _ & Hh)%elem_of_flat_map.
        by apply (module_handlers_keep c cls). }
    apply IH in H as [Hs' He'].
    split; [by eapply state_grows_trans|by eapply event_kept_trans].
Qed.

(** X7.  Whatever event is dispatched to whatever entity of the module's
    components, a dispatch that returns keeps the set of entities and the
    type of each (a [ThingType] is never replaced), only appends to modifier
    lists, never unsets a stored slot, only appends to the calls made on the
    world and to the printed lines, and leaves the event's class, actor,
    target and amount alone; the [cancelled] flag is set at most, never
    cleared. *)
Theorem dispatch_only_grows (e : thing_id) (ev ev' : FEvent) (st st' : FState) :
  handle_event e ev st = Ok (ev', st') ->
  state_grows st st' /\ event_kept ev ev'.
Proof.
  unfold handle_event, Thing_handle_event. intros H. bind_ok H as th eqn Eth.
  by apply handle_event_items_keep in H.
Qed.

(** ** More scenarios on the module's components *)

Lemma dispatch_single_raise cs layer name r mods ty target e (ev : FEvent)
    (st : FState) th err :
  ThingType_init implementedBy cs layer name r mods = Ok ty ->
  target ∈ cs ->
  (forall c, capability_of c ≠ capability_of target ->
             handlers_of c (Event.event_class ev) = []) ->
  get_thing e st = Ok th -> Thing.type th = ty ->
  run_handlers (handlers_of target (Event.event_class ev))
    {| component_class := target; iface := capability_of target; entity := e |}
    ev st = Raise err ->
  handle_event e ev st = Raise err.
Proof.
  intros Hinit Htarget Hothers Hth Hty Hrun.
  destruct (init_components_split _ _ _ _ _ _ _ Hinit Htarget)
    as (l1 & l2 & Hsplit & Hrest).
  unfold handle_event, Thing_handle_event. rewrite Hth. simpl.
  rewrite Hty, Hsplit, handle_event_items_app.
  rewrite items_skip_of.
  2:{ intros p Hp. apply Hothers, Hrest, elem_of_app. by left. }
  simpl. rewrite Component_handle_event_flat. simpl.
  fold (handlers_of target (Event.event_class ev)). by rewrite Hrun.
Qed.

Lemma only_combatants_handle_attack (c : ComponentClass) :
  capability_of c ≠ ICombatant -> handlers_of c MeleeAttack = [].
Proof. intros Hne; destruct c; first [reflexivity | by destruct Hne]. Qed.

Lemma only_portables_handle_pickup (c : ComponentClass) :
  capability_of c ≠ IPortable -> handlers_of c PickUp = [].
Proof. intros Hne; destruct c; first [reflexivity | by destruct Hne]. Qed.

(** X8.  An entity whose type holds the [Empty] component handles a [Walk]
    event by one call [world.current_map.move(event.actor,
    event.target.position)]; it neither cancels the event nor touches any
    entity.  An event without a target raises [AttributeError]. *)
Theorem empty_lets_walk cs layer name r mods ty (e : thing_id) (st : FState)
    (th : Thing.t ComponentClass) (ev : FEvent) :
  ThingType_init implementedBy cs layer name r mods = Ok ty ->
  Empty ∈ cs ->
  get_thing e st = Ok th -> Thing.type th = ty ->
  Event.event_class ev = Walk ->
  (forall pos, Event.target ev = Some pos ->
     handle_event e ev st =
       Ok (ev, call_world (current_map_move (Event.actor ev) pos) st)) /\
  (Event.target ev = None -> handle_event e ev st = Raise AttributeError).
Proof.
  intros Hinit Hin Hth Hty Hcls. split.
  - intros pos Hpos.
    eapply (dispatch_single _ _ _ _ _ _ Empty); try eassumption; try done.
    + intros c Hc. rewrite Hcls. by apply only_physics_handle_walk.
    + rewrite Hcls. change (handlers_of Empty Walk) with [Empty_handle_walk].
      simpl. unfold Empty_handle_walk. by rewrite Hpos.
  - intros Hnone.
    eapply (dispatch_single_raise _ _ _ _ _ _ Empty); try eassumption.
    + intros c Hc. rewrite Hcls. by apply only_physics_handle_walk.
    + rewrite Hcls. change (handlers_of Empty Walk) with [Empty_handle_walk].
      simpl. unfold Empty_handle_walk. by rewrite Hnone.
Qed.

(** X9.  An entity whose type holds [Combatant] handles a [MeleeAttack] by
    printing "<attacker> hits <defender>" and queueing [Damage(entity, 5)]
    against itself: the amount is 5 whatever the strength of either side,
    and no health is changed by the attack itself.  An attack without an
    actor raises [AttributeError]. *)
Theorem melee_attack_queues_damage cs layer name r mods ty (e : thing_id)
    (st : FState) (th : Thing.t ComponentClass) (ev : FEvent) :
  ThingType_init implementedBy cs layer name r mods = Ok ty ->
  Combatant ∈ cs ->
  get_thing e st = Ok th -> Thing.type th = ty ->
  Event.event_class ev = MeleeAttack ->
  (forall a attacker,
     Event.actor ev = Some a -> get_thing a st = Ok attacker ->
     handle_event e ev st =
       Ok (ev,
           call_world (queue_immediate_event Damage [AThing e; AInt 5])
             (print (ThingType.name (Thing.type attacker) ++ " hits " ++ name)%string
                    st))) /\
  (Event.actor ev = None -> handle_event e ev st = Raise AttributeError).
Proof.
  intros Hinit Hin Hth Hty Hcls.
  pose proof (init_components_entries _ _ _ _ _ _ _ Hinit) as (_ & _ & Hname & _).
  split.
  - intros a attacker Ha Hattacker.
    eapply (dispatch_single _ _ _ _ _ _ Combatant); try eassumption; try done.
    + intros c Hc. rewrite Hcls. by apply only_combatants_handle_attack.
    + rewrite Hcls.
      change (handlers_of Combatant MeleeAttack) with [Combatant_handle_attack].
      simpl. unfold Combatant_handle_attack. rewrite Ha. simpl.
      rewrite Hattacker, Hth. simpl. by rewrite Hty, Hname.
  - intros Hnone.
    eapply (dispatch_single_raise _ _ _ _ _ _ Combatant); try eassumption.
    + intros c Hc. rewrite Hcls. by apply only_combatants_handle_attack.
    + rewrite Hcls.
      change (handlers_of Combatant MeleeAttack) with [Combatant_handle_attack].
      simpl. unfold Combatant_handle_attack. by rewrite Hnone.
Qed.

Lemma list_find_skip {A} (P : A -> Prop) `{forall x, Decision (P x)}
    (l1 l2 : list A) (x : A) :
  (forall y, y ∈ l1 -> ~ P y) -> P x ->
  list_find P (l1 ++ x :: l2) = Some (length l1, x).
Proof.
  intros Hl1 Hx. apply list_find_Some. split; [|split; [done|]].
  - by rewrite lookup_app_r, Nat.sub_diag by lia.
  - intros j y Hj Hlt. rewrite lookup_app_l in Hj by done.
    apply Hl1. by apply list_elem_of_lookup_2 in Hj.
Qed.

(** [Thing.__conform__] finds the supplied component of a capability. *)
Lemma conform_module cs layer name r mods ty target (e : thing_id) (st : FState)
    (th : Thing.t ComponentClass) :
  ThingType_init implementedBy cs layer name r mods = Ok ty ->
  target ∈ cs ->
  get_thing e st = Ok th -> Thing.type th = ty ->
  Thing_conform e (capability_of target) st =
    Ok {| component_class := target; iface := capability_of target; entity := e |}.
Proof.
  intros Hinit Htarget Hth Hty.
  pose proof (init_components _ _ _ _ _ _ Hinit) as (Hcomps & _ & _).
  destruct (init_components_split _ _ _ _ _ _ _ Hinit Htarget)
    as (l1 & l2 & Hsplit & Hrest).
  unfold Thing_conform. rewrite Hth. simpl. rewrite Hty, Hsplit.
  rewrite list_find_skip; [done| |done].
  intros p Hp Hkey.
  assert (Hp' : p ∈ ThingType.components ty).
  { rewrite Hsplit. apply elem_of_app. by left. }
  rewrite Hcomps in Hp'. apply elem_of_flat_map in Hp' as (c & _ & Hpc).
  rewrite entries_of in Hpc. apply list_elem_of_singleton in Hpc. subst p.
  simpl in Hkey. apply (Hrest (capability_of c, c)); [|done].
  apply elem_of_app. by left.
Qed.

(** [Thing.__conform__] raises [KeyError] for a capability no supplied
    component has. *)
Lemma conform_module_missing cs layer name r mods ty i (e : thing_id) (st : FState)
    (th : Thing.t ComponentClass) :
  ThingType_init implementedBy cs layer name r mods = Ok ty ->
  (forall c, c ∈ cs -> capability_of c ≠ i) ->
  get_thing e st = Ok th -> Thing.type th = ty ->
  Thing_conform e i st = Raise KeyError.
Proof.
  intros Hinit Hnone Hth Hty.
  pose proof (init_components _ _ _ _ _ _ Hinit) as (Hcomps & _ & _).
  unfold Thing_conform. rewrite Hth. simpl. rewrite Hty, Hcomps.
  destruct (list_find _ _) as [[n [k c]]|] eqn:Hfind; [|done].
  apply list_find_Some in Hfind as (Hn & Hk & _). simpl in Hk. subst k.
  apply list_elem_of_lookup_2, elem_of_flat_map in Hn as (c' & Hc' & Hp).
  rewrite entries_of in Hp. apply list_elem_of_singleton in Hp.
  injection Hp as Hi Hc. subst. by destruct (Hnone c' Hc').
Qed.

(** Appending to the inventory of a container whose inventory slot no
    modifier targets. *)
Lemma inventory_append (container : FComponent) (st : FState)
    (th : Thing.t ComponentClass) (items : list thing_id) (x : thing_id) :
  get_thing (entity container) st = Ok th ->
  Forall (fun m => inventory_attr ≠ Modifier.stat m) (Thing.modifiers th) ->
  default (VList []) (Thing.component_data th !! inventory_attr) = VList items ->
  (let* '(inventory, st1) := ComponentAttribute_get Container_inventory container st in
   match inventory with
   | VList l => ComponentAttribute_set Container_inventory container
                  (VList (l ++ [x])) st1
   | VInt _ => Raise AttributeError
   end) =
  Ok (put_thing (entity container)
        (Thing.set_data th (<[inventory_attr := VList (items ++ [x])]>
                              (Thing.component_data th))) st).
Proof.
  intros Hth Hmods Hitems.
  assert (Hok : forall l, apply_modifiers (Thing.modifiers th) inventory_attr (VList l)
                          = Ok (VList l)).
  { intros l. destruct (apply_modifiers_list_cases (Thing.modifiers th)
                          inventory_attr l) as [[_ H]|[Hex _]]; [done|].
    apply Exists_exists in Hex as (m & Hm & Heq).
    rewrite Forall_forall in Hmods. by destruct (Hmods m Hm). }
  destruct (Thing.component_data th !! inventory_attr) as [v|] eqn:Hdata;
    simpl in Hitems.
  - subst v. rewrite (get_stored Container_inventory container st th _ Hth Hdata).
    change (zope_attribute Container_inventory) with inventory_attr.
    rewrite Hok. simpl. by rewrite (set_Ok Container_inventory container st th _ Hth).
  - injection Hitems as <-.
    rewrite (get_fresh Container_inventory container st th Hth Hdata).
    change (zope_attribute Container_inventory) with inventory_attr.
    change (initializer Container_inventory container) with (VList []).
    rewrite Hok. simpl.
    rewrite (set_Ok Container_inventory container _ _ _ (get_thing_put _ _ _)).
    simpl. change (zope_attribute Container_inventory) with inventory_attr.
    by rewrite insert_insert_eq, put_thing_put, set_data_set_data.
Qed.

(** X10.  Picking an item up.  The entity's type holds [Portable] and is on
    the item layer; the actor's type holds [Container] and no modifier of the
    actor targets the inventory slot.  Handling [PickUp] prints a line, calls
    [world.current_map.remove] on the item and puts the item at the end of
    the actor's inventory (an unwritten inventory counts as empty).  An
    entity that is not on the item layer fails the assertion; an actor whose
    type has no container raises [KeyError]. *)
Theorem pick_up_into_inventory cs layer name r mods ty (it : thing_id)
    (st : FState) (th_it : Thing.t ComponentClass) (ev : FEvent) (w : thing_id)
    (th_w : Thing.t ComponentClass) cs_w layer_w name_w r_w mods_w ty_w :
  ThingType_init implementedBy cs layer name r mods = Ok ty ->
  Portable ∈ cs ->
  get_thing it st = Ok th_it -> Thing.type th_it = ty ->
  ThingType_init implementedBy cs_w layer_w name_w r_w mods_w = Ok ty_w ->
  get_thing w st = Ok th_w -> Thing.type th_w = ty_w ->
  Event.event_class ev = PickUp -> Event.actor ev = Some w ->
  (layer ≠ item -> handle_event it ev st = Raise AssertionError) /\
  (layer = item -> (forall c, c ∈ cs_w -> capability_of c ≠ IContainer) ->
   handle_event it ev st = Raise KeyError) /\
  (layer = item -> Container ∈ cs_w ->
   Forall (fun m => inventory_attr ≠ Modifier.stat m) (Thing.modifiers th_w) ->
   forall items,
     default (VList []) (Thing.component_data th_w !! inventory_attr) = VList items ->
     handle_event it ev st =
       Ok (ev,
           put_thing w
             (Thing.set_data th_w (<[inventory_attr := VList (items ++ [it])]>
                                     (Thing.component_data th_w)))
             (call_world (current_map_remove it)
                (print ("ooh picking up " ++ name)%string st)))).
Proof.
  intros Hinit Hin Hit Hty Hinit_w Hw Hty_w Hcls Hactor.
  pose proof (init_components_entries _ _ _ _ _ _ _ Hinit) as (_ & Hlayer & Hname & _).
  assert (Hothers : forall c, capability_of c ≠ capability_of Portable ->
                              handlers_of c (Event.event_class ev) = []).
  { intros c Hc. rewrite Hcls. by apply only_portables_handle_pickup. }
  assert (Hhs : handlers_of Portable (Event.event_class ev)
                = [Portable_handle_picked_up]) by by rewrite Hcls.
  set (st2 := call_world (current_map_remove it)
                (print ("ooh picking up " ++ name)%string st)).
  assert (Hw2 : get_thing w st2 = Ok th_w) by exact Hw.
  split; [|split].
  - intros Hne.
    apply (dispatch_single_raise cs layer name r mods ty Portable it ev st th_it _
             Hinit Hin Hothers Hit Hty).
    rewrite Hhs. simpl. unfold Portable_handle_picked_up. simpl. rewrite Hit.
    simpl. unfold Thing_layer. rewrite Hty, Hlayer.
    by rewrite bool_decide_eq_true_2.
  - intros -> Hnone.
    apply (dispatch_single_raise cs item name r mods ty Portable it ev st th_it _
             Hinit Hin Hothers Hit Hty).
    rewrite Hhs. simpl. unfold Portable_handle_picked_up. simpl. rewrite Hit.
    simpl. unfold Thing_layer. rewrite Hty, Hlayer, Hname.
    rewrite bool_decide_eq_false_2 by tauto. rewrite Hactor. simpl.
    fold st2.
    by rewrite (conform_module_missing _ _ _ _ _ _ _ _ _ _ Hinit_w Hnone Hw2 Hty_w).
  - intros -> Hcontainer Hmods items Hitems.
    eapply (dispatch_single cs item name r mods ty Portable it ev _ st _ th_it
              Hinit Hin Hothers Hit Hty); [|done].
    rewrite Hhs. simpl. unfold Portable_handle_picked_up. simpl. rewrite Hit.
    simpl. unfold Thing_layer. rewrite Hty, Hlayer, Hname.
    rewrite bool_decide_eq_false_2 by tauto. rewrite Hactor. simpl.
    fold st2.
    pose proof (conform_module _ _ _ _ _ _ Container _ _ _ Hinit_w Hcontainer
                  Hw2 Hty_w) as Hconf.
    change (capability_of Container) with IContainer in Hconf.
    rewrite Hconf. simpl.
    pose proof (inventory_append
                  {| component_class := Container; iface := IContainer; entity := w |}
                  st2 th_w items it Hw2 Hmods Hitems) as Happ.
    simpl in Happ.
    destruct (ComponentAttribute_get Container_inventory _ st2) as [[inv st3]|];
      simpl in *; [|discriminate].
    destruct inv; [discriminate|]. by rewrite Happ.
Qed.

Lemma dispatch_equip cs layer name r mods ty (it w : thing_id) (st : FState)
    (th_it th_w : Thing.t ComponentClass) (ev : FEvent) :
  ThingType_init implementedBy cs layer name r mods = Ok ty ->
  Equipment ∈ cs ->
  get_thing it st = Ok th_it -> Thing.type th_it = ty ->
  get_thing w st = Ok th_w ->
  Event.event_class ev = Equip -> Event.actor ev = Some w ->
  handle_event it ev st =
    Ok (ev, put_thing w (Thing.add_modifiers th_w mods)
              (print "you put on the armor" st)).
Proof.
  intros Hinit Hin Hit Hty Hw Hcls Hactor.
  pose proof (init_components _ _ _ _ _ _ Hinit) as (_ & _ & Hmods).
  assert (Hothers : forall c, capability_of c ≠ capability_of Equipment ->
                              handlers_of c (Event.event_class ev) = []).
  { intros c Hc. rewrite Hcls. by apply only_equipment_handles_equip. }
  eapply (dispatch_single cs layer name r mods ty Equipment it ev _ st _ th_it
            Hinit Hin Hothers Hit Hty); [|done].
  rewrite Hcls. change (handlers_of Equipment Equip) with [Equipment_handle_equip].
  simpl. unfold Equipment_handle_equip. rewrite Hactor. simpl.
  change (get_thing w (print "you put on the armor" st)) with (get_thing w st).
  change (get_thing it (print "you put on the armor" st)) with (get_thing it st).
  rewrite Hw, Hit. simpl. by rewrite Hty, Hmods.
Qed.

(** X11.  Nothing records that an item is worn: handling [Equip] a second
    time appends the type's modifiers a second time, and a slot read of the
    wearer then gains twice what they add. *)
Theorem equip_twice cs layer name r mods ty (it w : thing_id) (st : FState)
    (th_it th_w : Thing.t ComponentClass) (ev : FEvent) :
  ThingType_init implementedBy cs layer name r mods = Ok ty ->
  Equipment ∈ cs ->
  get_thing it st = Ok th_it -> Thing.type th_it = ty ->
  get_thing w st = Ok th_w ->
  Event.event_class ev = Equip -> Event.actor ev = Some w ->
  exists st1 st2,
    handle_event it ev st = Ok (ev, st1) /\
    handle_event it ev st1 = Ok (ev, st2) /\
    get_thing w st2 =
      Ok (Thing.add_modifiers (Thing.add_modifiers th_w mods) mods) /\
    stdout st2 = stdout st ++ ["you put on the armor"; "you put on the armor"] /\
    (forall (desc : ComponentAttribute ComponentClass) (self : FComponent)
            (z : Z) (st_r : FState),
       entity self = w ->
       ComponentAttribute_get desc self st = Ok (VInt z, st_r) ->
       exists st_r',
         ComponentAttribute_get desc self st2 =
           Ok (VInt (z + 2 * sum_adds (zope_attribute desc) mods), st_r')).
Proof.
  intros Hinit Hin Hit Hty Hw Hcls Hactor.
  set (st1 := put_thing w (Thing.add_modifiers th_w mods)
                (print "you put on the armor" st)).
  set (st2 := put_thing w (Thing.add_modifiers (Thing.add_modifiers th_w mods) mods)
                (print "you put on the armor" st1)).
  assert (Hw1 : get_thing w st1 = Ok (Thing.add_modifiers th_w mods))
    by apply get_thing_put.
  assert (Hit1 : exists th_it1, get_thing it st1 = Ok th_it1 /\
                                Thing.type th_it1 = ty).
  { destruct (decide (w = it)) as [->|Hne].
    - exists (Thing.add_modifiers th_w mods). split; [done|]. simpl.
      rewrite Hit in Hw. by injection Hw as <-.
    - exists th_it. split; [|done]. unfold st1.
      rewrite get_thing_put_ne by done. exact Hit. }
  destruct Hit1 as (th_it1 & Hit1 & Hty1).
  exists st1, st2. split; [|split; [|split; [|split]]].
  - by apply (dispatch_equip cs layer name r mods ty it w st th_it th_w ev).
  - by apply (dispatch_equip cs layer name r mods ty it w st1 th_it1 _ ev).
  - apply get_thing_put.
  - simpl. by rewrite <- app_assoc.
  - intros desc self z st_r Hself Hget. subst w.
    destruct (get_add_modifiers desc self st st2 st_r th_w (mods ++ mods) z Hw)
      as [st_r' Hr]; [|done|].
    + unfold st2. rewrite get_thing_put. f_equal.
      unfold Thing.add_modifiers. simpl. by rewrite <- app_assoc.
    + exists st_r'. rewrite Hr, sum_adds_app. do 3 f_equal. lia.
Qed.

(** X12.  Damage adds up and nothing stops at zero: on an entity without
    modifiers, two [Damage] events of [a1] and [a2] on base health [b] (the
    stored value, or 10 when unwritten) leave [b - a1 - a2] stored, and each
    of them queues a [Die] of its own when the health it leaves is at or
    below zero, so an entity already dead is killed again. *)
Theorem damage_adds_up cs layer name r mods ty (e : thing_id) (st : FState)
    (th : Thing.t ComponentClass) (ev1 ev2 : FEvent) (b a1 a2 : Z) :
  ThingType_init implementedBy cs layer name r mods = Ok ty ->
  Combatant ∈ cs ->
  get_thing e st = Ok th -> Thing.type th = ty ->
  Thing.modifiers th = [] ->
  default (VInt 10) (Thing.component_data th !! health_attr) = VInt b ->
  Event.event_class ev1 = Damage -> Event.amount ev1 = Some a1 ->
  Event.event_class ev2 = Damage -> Event.amount ev2 = Some a2 ->
  exists st1 st2,
    handle_event e ev1 st = Ok (ev1, st1) /\
    handle_event e ev2 st1 = Ok (ev2, st2) /\
    stored st2 e health_attr = Some (VInt (b - a1 - a2)) /\
    world st2 =
      world st
      ++ (if bool_decide (b - a1 <= 0)
          then [queue_immediate_event Die [AThing e]] else [])
      ++ (if bool_decide (b - a1 - a2 <= 0)
          then [queue_immediate_event Die [AThing e]] else []).
Proof.
  intros Hinit Hin Hth Hty Hmods Hb Hc1 Ha1 Hc2 Ha2.
  set (th1 := Thing.set_data th (<[health_attr := VInt (b - a1)]>
                                   (Thing.component_data th))).
  pose proof (dispatch_damage cs layer name r mods ty e ev1 st th b a1
                Hinit Hin Hth Hty Hmods Hb Hc1 Ha1) as H1.
  simpl in H1. fold th1 in H1.
  eexists. eexists. split; [exact H1|].
  assert (Hth1 : get_thing e
                   (if bool_decide (b - a1 <= 0)
                    then call_world (queue_immediate_event Die [AThing e])
                                    (put_thing e th1 st)
                    else put_thing e th1 st) = Ok th1).
  { destruct (bool_decide (b - a1 <= 0)); apply get_thing_put. }
  pose proof (dispatch_damage cs layer name r mods ty e ev2 _ th1 (b - a1) a2
                Hinit Hin Hth1 Hty Hmods) as H2.
  simpl in H2. rewrite lookup_insert_eq in H2.
  specialize (H2 eq_refl Hc2 Ha2).
  split; [exact H2|].
  destruct (bool_decide (b - a1 <= 0)), (bool_decide (b - a1 - a2 <= 0)); simpl;
    (split; [unfold stored; simpl; rewrite lookup_insert_eq; simpl;
             by rewrite lookup_insert_eq
            |by rewrite ?app_nil_r, <- ?app_assoc]).
Qed.

(** ** The entity types the module can build *)

Lemma module_capabilities (cs : list ComponentClass) :
  flat_map (capabilities implementedBy) cs = capability_of <$> cs.
Proof.
  induction cs as [|c cs IH]; simpl; [done|]. by rewrite capabilities_of, IH.
Qed.

Lemma module_entries (cs : list ComponentClass) :
  flat_map (entries implementedBy) cs = (fun c => (capability_of c, c)) <$> cs.
Proof.
  induction cs as [|c cs IH]; simpl; [done|]. by rewrite entries_of, IH.
Qed.

Lemma module_init_clash cs layer name r mods :
  ~ NoDup (capability_of <$> cs) ->
  ThingType_init implementedBy cs layer name r mods = Raise TypeError.
Proof.
  intros Hdup. unfold ThingType_init.
  destruct (register_components implementedBy cs []) as [comps|e] eqn:Hreg; simpl.
  - apply register_components_Ok in Hreg as (_ & Hnd & _).
    rewrite module_capabilities in Hnd. by destruct Hdup.
  - by rewrite (register_components_Raise _ _ _ _ Hreg).
Qed.

(** X13.  With the module's components, each of which implements one
    capability, [ThingType.__init__] succeeds exactly when the components
    have pairwise different capabilities, and the dict then lists them in
    argument order.  Hence [Creature], which always supplies [Solid],
    [Combatant] and [Container], rejects any further physics, combat or
    container component (no creature can be made of [Empty]), and [Item]
    rejects a second portable component. *)
Theorem module_type_construction cs layer name r mods :
  (NoDup (capability_of <$> cs) ->
   ThingType_init implementedBy cs layer name r mods =
     Ok {| ThingType.layer := layer;
           ThingType.name := name;
           ThingType.tmp_rendering := r;
           ThingType.modifiers := mods;
           ThingType.components := (fun c => (capability_of c, c)) <$> cs |}) /\
  (~ NoDup (capability_of <$> cs) ->
   ThingType_init implementedBy cs layer name r mods = Raise TypeError) /\
  (forall c, c ∈ cs -> capability_of c ∈ [IPhysics; ICombatant; IContainer] ->
             Creature cs name r = Raise TypeError) /\
  (forall c, c ∈ cs -> capability_of c = IPortable ->
             Item cs name r mods = Raise TypeError).
Proof.
  split; [|split; [apply module_init_clash|split]].
  - intros Hnd. unfold ThingType_init.
    rewrite register_components_complete.
    + simpl. by rewrite module_entries.
    + by rewrite module_capabilities.
    + intros i _ Hi. by apply elem_of_nil in Hi.
  - intros c Hc Hcap. unfold Creature. apply module_init_clash.
    rewrite fmap_app. intros (_ & Hdisj & _)%NoDup_app.
    apply (Hdisj (capability_of c)); [done|].
    apply list_elem_of_fmap. by exists c.
  - intros c Hc Hcap. unfold Item. apply module_init_clash.
    rewrite fmap_cons. intros [Hnotin _]%NoDup_cons. apply Hnotin.
    apply list_elem_of_fmap. by exists c.
Qed.

(** ** The generic AI *)

Section ActFacts.
Context {Cls D : Type}.
Variable directions : list D.
Variable step : position -> D -> position.
Variable find_position : thing_id -> position.
Variable player : thing_id.
Variable randbelow : nat -> nat.

Lemma first_towards_Some ds pos player_pos before d after :
  ds = before ++ d :: after ->
  (forall d', d' ∈ before -> step pos d' ≠ player_pos) ->
  step pos d = player_pos ->
  first_towards step ds pos player_pos = Some d.
Proof.
  intros -> Hbefore Hd. induction before as [|d0 before IH]; simpl.
  - by rewrite bool_decide_eq_true_2.
  - rewrite bool_decide_eq_false_2 by (apply Hbefore; by left).
    apply IH. intros d' Hd'. apply Hbefore. by right.
Qed.

Lemma first_towards_None ds pos player_pos :
  (forall d, d ∈ ds -> step pos d ≠ player_pos) ->
  first_towards step ds pos player_pos = None.
Proof.
  induction ds as [|d0 ds IH]; intros Hall; simpl; [done|].
  rewrite bool_decide_eq_false_2 by (apply Hall; by left).
  apply IH. intros d Hd. apply Hall. by right.
Qed.

(** X14.  [GenericAI.act] queues exactly one event.  When some direction
    leads from the entity's position to the player's, it is a [MeleeAttack]
    in the first such direction of the enumeration; when none does, it is a
    [Walk] in a direction of the enumeration drawn at random, whether or not
    that step brings the entity nearer the player. *)
Theorem act_attacks_adjacent_player (self : Component Cls) :
  (forall n, (0 < n)%nat -> (randbelow n < n)%nat) ->
  directions ≠ [] ->
  let pos := find_position (entity self) in
  let player_pos := find_position player in
  let acted := GenericAI_act directions step find_position player randbelow self in
  (forall before d after,
     directions = before ++ d :: after ->
     (forall d', d' ∈ before -> step pos d' ≠ player_pos) ->
     step pos d = player_pos ->
     acted = Some (queue_MeleeAttack (entity self) d)) /\
  ((forall d, d ∈ directions -> step pos d ≠ player_pos) ->
   exists d, d ∈ directions /\ acted = Some (queue_Walk (entity self) d)) /\
  acted ≠ None.
Proof.
  intros Hrand Hne pos player_pos acted. subst acted. unfold GenericAI_act.
  fold pos player_pos.
  assert (Hchoice : exists d, d ∈ directions /\ random_choice randbelow directions = Some d).
  { unfold random_choice. destruct directions as [|d0 ds] eqn:Hds; [done|].
    rewrite <- Hds.
    destruct (lookup_lt_is_Some_2 directions (randbelow (length directions)))
      as [d Hd].
    { apply Hrand. rewrite Hds. simpl. lia. }
    exists d. split; [by apply list_elem_of_lookup_2 in Hd|].
    rewrite Hds in Hd |- *. exact Hd. }
  split; [|split].
  - intros before d after Hsplit Hbefore Hd.
    by rewrite (first_towards_Some _ _ _ before d after Hsplit Hbefore Hd).
  - intros Hnone. rewrite first_towards_None by done.
    destruct Hchoice as (d & Hd & ->). by exists d.
  - destruct (first_towards step directions pos player_pos); [done|].
    by destruct Hchoice as (d & _ & ->).
Qed.
End ActFacts.

(** ** The viewport of the console *)

(** X15.  [CellWidget._adjust_viewport], for spans whose [+] moves both
    ends, whose [scale] gives at most the asked width and whose
    [shift_into_view] keeps the width: the viewport returned never starts
    before the map does, never ends past the map's end or past the map's
    start plus the width, whichever is larger, and is no wider than asked.
    The margin it uses is at most [MAP_MARGIN] and, for a positive width,
    non-negative and less than half the width. *)
Theorem adjusted_viewport_on_map {Span : Type} (span_start span_end : Span -> Z)
    (shift_into_view : Span -> Z -> option Z -> Span)
    (scale : Span -> Z -> Z -> Span) (span_add : Span -> Z -> Span)
    (viewport : Span) (width pos : Z) (bounds : Span) :
  (forall s k, span_start (span_add s k) = span_start s + k) ->
  (forall s k, span_end (span_add s k) = span_end s + k) ->
  (forall s w p, span_end (scale s w p) - span_start (scale s w p) <= w) ->
  (forall s p m, span_end (shift_into_view s p m) - span_start (shift_into_view s p m)
                 = span_end s - span_start s) ->
  let v := _adjust_viewport span_start span_end shift_into_view scale span_add
             viewport width pos bounds in
  span_start bounds <= span_start v /\
  span_end v <= Z.max (span_end bounds) (span_start bounds + width) /\
  span_end v - span_start v <= width /\
  viewport_margin width <= MAP_MARGIN /\
  (0 < width -> 0 <= viewport_margin width /\ 2 * viewport_margin width < width).
Proof.
  intros Hstart Hend Hscale Hshift v. subst v. unfold _adjust_viewport.
  set (v1 := shift_into_view viewport pos None).
  set (v2 := scale v1 width pos).
  set (v3 := shift_into_view v2 pos (Some (viewport_margin width))).
  assert (Hlen : span_end v3 - span_start v3 <= width).
  { unfold v3. rewrite Hshift. apply Hscale. }
  rewrite Hstart, Hend.
  unfold viewport_margin, MAP_MARGIN.
  repeat split; try lia.
  - pose proof (Z.div_pos (width - 1) 2). lia.
  - pose proof (Z.mul_div_le (width - 1) 2). lia.
Qed.

(** ** The further properties on concrete inputs *)

Lemma read_is_stable_witness :
  let st1 := put_thing 1%nat
               (Thing.set_data (Thing.init player_type) {[ health_attr := VInt 10 ]})
               small_world in
  ComponentAttribute_get Combatant_health combatant_1 st1 = Ok (VInt 10, st1) /\
  world st1 = [].
Proof.
  destruct (read_is_stable Combatant_health combatant_1 small_world
              (put_thing 1%nat
                 (Thing.set_data (Thing.init player_type)
                                 {[ health_attr := VInt 10 ]})
                 small_world)
              (VInt 10) eq_refl)
    as (H1 & _ & _ & H4 & _).
  exact (conj H1 H4).
Defined.

Lemma write_is_local_witness :
  let st1 := put_thing 1%nat
               (Thing.set_data (Thing.init player_type) {[ health_attr := VInt 4 ]})
               small_world in
  stored st1 1%nat health_attr = Some (VInt 4) /\
  (forall e a, (e, a) ≠ (1%nat, health_attr) ->
               stored st1 e a = stored small_world e a).
Proof.
  destruct (write_is_local Combatant_health combatant_1 small_world
              (put_thing 1%nat
                 (Thing.set_data (Thing.init player_type)
                                 {[ health_attr := VInt 4 ]})
                 small_world)
              (VInt 4) eq_refl)
    as (H1 & H2 & _).
  exact (conj H1 H2).
Defined.

Lemma list_slot_read_witness :
  ComponentAttribute_get Container_inventory container_1 laden_world
    = Ok (VList [7%nat], laden_world).
Proof.
  apply (proj1 (list_slot_read Container_inventory container_1 laden_world
                  laden_player [7%nat] eq_refl eq_refl)).
  repeat constructor. discriminate.
Defined.

Lemma capability_lookup_witness :
  exists c,
    Thing_conform 1%nat IContainer small_world =
      Ok {| component_class := c; iface := IContainer; entity := 1%nat |} /\
    c ∈ [Solid; Combatant; Container; PlayerIntelligence] /\
    IContainer ∈ implementedBy c.
Proof.
  apply (proj1 (capability_lookup implementedBy
                  [Solid; Combatant; Container; PlayerIntelligence]
                  creature "you" ("☻", "player") [] player_type 1%nat IContainer
                  small_world (Thing.init player_type) eq_refl eq_refl eq_refl)).
  by apply (bool_decide_unpack _).
Defined.

Lemma handlers_leave_namespace_witness :
  dict_get (cls_dict (class_of Solid)) "handle_walk" = None /\
  dict_get (cls_dict (class_of Solid)) "blocks" = Some AMember.
Proof.
  destruct (handlers_leave_namespace (EvC := EventClass) (F := FHandler)
              "Solid" [Component_class]
              [("blocks", AMember);
               ("handle_walk", as_attr (handler Walk (Plain Solid_handle_walk)))])
    as (_ & H).
  { by apply (bool_decide_unpack _). }
  split.
  - exact (H "handle_walk" ltac:(discriminate)).
  - exact (H "blocks" ltac:(discriminate)).
Defined.

Lemma dispatch_only_grows_witness :
  state_grows small_world small_world /\
  event_kept (mk_event Walk (Some 1%nat) (Some (0, 1)) None)
             (Event.cancel (mk_event Walk (Some 1%nat) (Some (0, 1)) None)).
Proof.
  exact (dispatch_only_grows 3%nat
           (mk_event Walk (Some 1%nat) (Some (0, 1)) None)
           (Event.cancel (mk_event Walk (Some 1%nat) (Some (0, 1)) None))
           small_world small_world eq_refl).
Defined.

Lemma empty_lets_walk_witness :
  handle_event 3%nat (mk_event Walk (Some 1%nat) (Some (0, 1)) None) cellar
    = Ok (mk_event Walk (Some 1%nat) (Some (0, 1)) None,
          call_world (current_map_move (Some 1%nat) (0, 1)) cellar).
Proof.
  exact (proj1 (empty_lets_walk [Empty] architecture "dirt" ("·", "floor") []
                  floor_type 3%nat cellar (Thing.init floor_type)
                  (mk_event Walk (Some 1%nat) (Some (0, 1)) None)
                  eq_refl (list_elem_of_here _ _) eq_refl eq_refl eq_refl)
               (0, 1) eq_refl).
Defined.

Lemma melee_attack_queues_damage_witness :
  handle_event 1%nat (mk_event MeleeAttack (Some 2%nat) None None) arena
    = Ok (mk_event MeleeAttack (Some 2%nat) None None,
          call_world (queue_immediate_event Damage [AThing 1%nat; AInt 5])
            (print "salamango hits you" arena)).
Proof.
  refine (proj1 (melee_attack_queues_damage
                   [Solid; Combatant; Container; PlayerIntelligence]
                   creature "you" ("☻", "player") [] player_type 1%nat arena
                   (Thing.init player_type)
                   (mk_event MeleeAttack (Some 2%nat) None None)
                   eq_refl _ eq_refl eq_refl eq_refl)
                2%nat (Thing.init salamango_type) eq_refl eq_refl).
  by apply (bool_decide_unpack _).
Defined.

Lemma pick_up_into_inventory_witness :
  handle_event 2%nat (mk_event PickUp (Some 1%nat) None None) cellar
    = Ok (mk_event PickUp (Some 1%nat) None None,
          put_thing 1%nat
            (Thing.set_data (Thing.init player_type)
                            {[ inventory_attr := VList [2%nat] ]})
            (call_world (current_map_remove 2%nat)
               (print "ooh picking up potion" cellar))).
Proof.
  refine (proj2 (proj2 (pick_up_into_inventory
                          [Portable; UsablePotion] item "potion" ("ð", "default") []
                          potion_type 2%nat cellar (Thing.init potion_type)
                          (mk_event PickUp (Some 1%nat) None None) 1%nat
                          (Thing.init player_type)
                          [Solid; Combatant; Container; PlayerIntelligence]
                          creature "you" ("☻", "player") [] player_type
                          eq_refl (list_elem_of_here _ _) eq_refl eq_refl
                          eq_refl eq_refl eq_refl eq_refl eq_refl))
                eq_refl _ (Forall_nil_2 _) [] eq_refl).
  by apply (bool_decide_unpack _).
Defined.

Lemma equip_twice_witness :
  exists st1 st2,
    handle_event 2%nat (mk_event Equip (Some 1%nat) None None) small_world
      = Ok (mk_event Equip (Some 1%nat) None None, st1) /\
    handle_event 2%nat (mk_event Equip (Some 1%nat) None None) st1
      = Ok (mk_event Equip (Some 1%nat) None None, st2) /\
    exists st_r',
      ComponentAttribute_get Combatant_strength combatant_1 st2
        = Ok (VInt (3 + 2 * 3), st_r').
Proof.
  destruct (equip_twice [Portable; Equipment]
              item "armor" ("[", "default")
              [{| Modifier.stat := strength_attr; Modifier.add := 3 |}]
              armor_type 2%nat 1%nat small_world
              (Thing.init armor_type) (Thing.init player_type)
              (mk_event Equip (Some 1%nat) None None)
              eq_refl (list_elem_of_further _ _ _ (list_elem_of_here _ _))
              eq_refl eq_refl eq_refl eq_refl eq_refl)
    as (st1 & st2 & H1 & H2 & _ & _ & H5).
  exists st1, st2. split; [exact H1|]. split; [exact H2|].
  exact (H5 Combatant_strength combatant_1 3 _ eq_refl eq_refl).
Defined.

Lemma damage_adds_up_witness :
  exists st1 st2,
    handle_event 1%nat (mk_event Damage None None (Some 10)) small_world
      = Ok (mk_event Damage None None (Some 10), st1) /\
    handle_event 1%nat (mk_event Damage None None (Some 3)) st1
      = Ok (mk_event Damage None None (Some 3), st2) /\
    stored st2 1%nat health_attr = Some (VInt (-3)) /\
    world st2 = [queue_immediate_event Die [AThing 1%nat];
                 queue_immediate_event Die [AThing 1%nat]].
Proof.
  refine (damage_adds_up [Solid; Combatant; Container; PlayerIntelligence]
            creature "you" ("☻", "player") [] player_type 1%nat small_world
            (Thing.init player_type)
            (mk_event Damage None None (Some 10))
            (mk_event Damage None None (Some 3)) 10 10 3
            eq_refl _ eq_refl eq_refl eq_refl eq_refl eq_refl eq_refl eq_refl
            eq_refl).
  by apply (bool_decide_unpack _).
Defined.

Lemma act_attacks_adjacent_player_witness :
  GenericAI_act straight_directions offset_step row_positions 1%nat (fun _ => 0%nat)
    {| component_class := GenericAI; iface := IActor; entity := 2%nat |}
  = Some (queue_MeleeAttack 2%nat (-1, 0)).
Proof.
  refine (proj1 (act_attacks_adjacent_player straight_directions offset_step
                   row_positions 1%nat (fun _ => 0%nat)
                   {| component_class := GenericAI; iface := IActor;
                      entity := 2%nat |} _ _)
                [(0, -1); (0, 1)] (-1, 0) [(1, 0)] eq_refl _ eq_refl).
  - intros n Hn. exact Hn.
  - discriminate.
  - intros d' Hd'. apply elem_of_cons in Hd' as [->|Hd'].
    + discriminate.
    + apply list_elem_of_singleton in Hd' as ->. discriminate.
Defined.

Lemma pair_span_laws :
  (forall (s : Z * Z) k, (pair_add s k).1 = s.1 + k) /\
  (forall (s : Z * Z) k, (pair_add s k).2 = s.2 + k) /\
  (forall (s : Z * Z) w p, (pair_scale s w p).2 - (pair_scale s w p).1 <= w) /\
  (forall (s : Z * Z) p m,
     (pair_shift_into_view s p m).2 - (pair_shift_into_view s p m).1 = s.2 - s.1).
Proof.
  split; [done|]. split; [done|]. split.
  - intros s w p. simpl. lia.
  - intros s p m. unfold pair_shift_into_view.
    repeat case_bool_decide; simpl; lia.
Qed.

Lemma adjusted_viewport_on_map_witness :
  let v := _adjust_viewport fst snd pair_shift_into_view pair_scale pair_add
             (0, 80) 20 97 (0, 100) in
  0 <= v.1 /\ v.2 <= 100 /\ v.2 - v.1 <= 20.
Proof.
  destruct pair_span_laws as (L1 & L2 & L3 & L4).
  destruct (adjusted_viewport_on_map fst snd pair_shift_into_view pair_scale
              pair_add (0, 80) 20 97 (0, 100) L1 L2 L3 L4)
    as (H1 & H2 & H3 & _).
  exact (conj H1 (conj H2 H3)).
Defined.

(** A handler registered for the root event type is called when a [Damage]
    event is dispatched to an entity. *)
Lemma dispatch_order_witness :
  Thing_handle_event listener_handlers flax_mro 3%nat
    (mk_event Damage None None (Some 5)) small_world
  = Ok (Event.cancel (mk_event Damage None None (Some 5)), small_world).
Proof.
  pose proof (dispatch_order listener_handlers flax_mro
                {| component_class := Solid; iface := IPhysics; entity := 3%nat |}
                {| component_class := Solid; iface := IPhysics; entity := 3%nat |}
                (mk_event Damage None None (Some 5)) small_world)
    as (_ & _ & _ & _ & _ & _ & H & _).
  exact (H 3%nat (Thing.init wall_type) [] IPhysics Solid []
           (mk_event Damage None None (Some 5)) small_world
           [Damage] EventBase [PyObject] [] Solid_handle_walk []
           eq_refl eq_refl eq_refl eq_refl eq_refl).
Defined.
